(** * Price-vs-fundamentals decomposition: a shallow embedding

    Embedding of [scripts/Price vs Fundamentals/build_price_vs_fundamentals.py]:
    the monthly loader ([load_pe_monthly]), the endpoint decomposition
    ([decompose_endpoints]) and its rolling generalisation
    ([rolling_decomposition]); further down, the choice of columns
    ([pick_col]), the loader on the frame of a file and the loop of [main]
    that feeds the two output files.

    Numbers.  The script computes with IEEE doubles.  The embedding keeps the
    special values the script tests for ([NaN], the two infinities) and
    replaces every finite double by the real number it stands for: rounding,
    overflow and the sign of zero are not modelled ("exact real arithmetic").
    Where a statement is about the doubles themselves, [double_div] rounds
    the quotient within their range: to zero below it, to an infinity
    above it.

    Exceptions.  A Python call either returns or raises; [outcome] records
    which, and [try ... except Exception] is a match on it. *)

From Stdlib Require Import Reals Lra Lia ZArith List String Bool.
From Stdlib Require Import Sorting.Sorted.
Import ListNotations.

(* ================================================================= *)
(** ** Floating-point values *)

Module Float.

Local Open Scope R_scope.

Inductive float : Type :=
| Fin (r : R)      (* a finite double, read as the real it denotes *)
| PInf             (* +inf *)
| NInf             (* -inf *)
| NaN.             (* nan, also pandas' marker of a missing cell *)

Definition Rltb (a b : R) : bool := if Rlt_dec a b then true else false.
Definition Rleb (a b : R) : bool := if Rle_dec a b then true else false.
Definition Reqb (a b : R) : bool := if Req_dec_T a b then true else false.

(** [pd.notna], [np.isfinite]. *)
Definition notna (x : float) : bool :=
  match x with NaN => false | _ => true end.

Definition isfinite (x : float) : bool :=
  match x with Fin _ => true | _ => false end.

(** Unary minus and [abs]. *)
Definition fneg (x : float) : float :=
  match x with
  | Fin r => Fin (- r)
  | PInf => NInf
  | NInf => PInf
  | NaN => NaN
  end.

Definition fabs (x : float) : float :=
  match x with
  | Fin r => Fin (Rabs r)
  | PInf | NInf => PInf
  | NaN => NaN
  end.

(** Ordered comparisons: every comparison with [NaN] is false. *)
Definition flt (x y : float) : bool :=
  match x, y with
  | NaN, _ | _, NaN => false
  | Fin a, Fin b => Rltb a b
  | _, NInf => false
  | NInf, _ => true
  | PInf, _ => false
  | Fin _, PInf => true
  end.

Definition fle (x y : float) : bool :=
  match x, y with
  | NaN, _ | _, NaN => false
  | Fin a, Fin b => Rleb a b
  | NInf, _ => true
  | _, PInf => true
  | PInf, _ => false
  | Fin _, NInf => false
  end.

Definition fgt (x y : float) : bool := flt y x.
Definition fge (x y : float) : bool := fle y x.

(** Multiplication, as needed for [100 * share]. *)
Definition signed_inf (positive : bool) : float :=
  if positive then PInf else NInf.

Definition fmul (x y : float) : float :=
  match x, y with
  | NaN, _ | _, NaN => NaN
  | Fin a, Fin b => Fin (a * b)
  | Fin a, PInf | PInf, Fin a =>
      if Reqb a 0 then NaN else signed_inf (Rltb 0 a)
  | Fin a, NInf | NInf, Fin a =>
      if Reqb a 0 then NaN else signed_inf (Rltb a 0)
  | PInf, PInf | NInf, NInf => PInf
  | PInf, NInf | NInf, PInf => NInf
  end.

(** IEEE division, the one numpy and pandas perform: a zero divisor gives an
    infinity or [NaN] and no exception (the zero is taken as [+0.0]). *)
Definition ieee_div (x y : float) : float :=
  match x, y with
  | NaN, _ | _, NaN => NaN
  | Fin a, Fin b =>
      if Reqb b 0
      then (if Reqb a 0 then NaN else signed_inf (Rltb 0 a))
      else Fin (a / b)
  | Fin _, (PInf | NInf) => Fin 0
  | PInf, Fin b => signed_inf (Rleb 0 b)
  | NInf, Fin b => signed_inf (Rltb b 0)
  | (PInf | NInf), (PInf | NInf) => NaN
  end.

(** [np.log]. *)
Definition np_log (x : float) : float :=
  match x with
  | Fin r => if Rltb 0 r then Fin (ln r) else if Reqb r 0 then NInf else NaN
  | PInf => PInf
  | NInf | NaN => NaN
  end.

(** [np.maximum], [np.minimum] (both propagate [NaN]) and
    [np.clip(a, a_min, a_max) = np.minimum(a_max, np.maximum(a, a_min))]. *)
Definition np_maximum (x y : float) : float :=
  match x, y with
  | NaN, _ | _, NaN => NaN
  | _, _ => if flt x y then y else x
  end.

Definition np_minimum (x y : float) : float :=
  match x, y with
  | NaN, _ | _, NaN => NaN
  | _, _ => if flt y x then y else x
  end.

Definition np_clip (a a_min a_max : float) : float :=
  np_minimum a_max (np_maximum a a_min).

(** [safe_pos] after [pd.to_numeric]: [x.where(x > 0, np.nan)]. *)
Definition safe_pos (x : float) : float :=
  if fgt x (Fin 0) then x else NaN.

End Float.
Export Float.

(* ================================================================= *)
(** ** Exceptions *)

Inductive exn : Type :=
| ValueError (msg : string)
| ZeroDivisionError.

Inductive outcome (A : Type) : Type :=
| Returns (a : A)
| Raises (e : exn).

Arguments Returns {A} a.
Arguments Raises {A} e.

Definition bind {A B : Type} (m : outcome A) (k : A -> outcome B) : outcome B :=
  match m with
  | Returns a => k a
  | Raises e => Raises e
  end.

Notation "x <- m ;; k" := (bind m (fun x => k))
  (at level 61, m at next level, right associativity).

(** Python's [/] on two floats: a zero divisor raises, anything else is the
    IEEE quotient. *)
Definition py_div (x y : float) : outcome float :=
  match y with
  | Fin b => if Reqb b 0 then Raises ZeroDivisionError else Returns (ieee_div x y)
  | _ => Returns (ieee_div x y)
  end.

(* ================================================================= *)
(** ** Panels *)

(** A month-start timestamp is kept as the ordinal of its month
    ([pandas.Period(freq="M").ordinal]). *)
Definition Month := Z.

(** One row of the normalised panel: columns date, price, pe, eps. *)
Record Row : Type := mkRow {
  date : Month;
  price : float;
  pe : float;
  eps : float
}.

(** [panel.dropna(subset=["price", "pe", "eps"])]. *)
Definition dropna (panel : list Row) : list Row :=
  filter (fun r => notna (price r) && notna (pe r) && notna (eps r)) panel.

(** The dictionary [decompose_endpoints] returns. *)
Record Decomposition : Type := mkDecomposition {
  start : Month;
  end_ : Month;
  log_price : float;
  log_eps : float;
  log_multiple : float;
  share_eps_pct : float;
  share_multiple_pct : float
}.

Definition not_enough_rows : string :=
  "Not enough valid rows after cleaning (need positive price, pe, eps).".

(** [decompose_endpoints]: [len(p) < 2] is [p] being empty or a singleton;
    otherwise [s] is [p.iloc[0]] and [e] is [p.iloc[-1]]. *)
Definition decompose_endpoints (panel : list Row) : outcome Decomposition :=
  let p := dropna panel in
  match p with
  | [] | [_] => Raises (ValueError not_enough_rows)
  | s :: rest =>
      let e := last rest s in
      let (p0, p1) := (price s, price e) in
      let (eps0, eps1) := (eps s, eps e) in
      let (pe0, pe1) := (pe s, pe e) in
      q_price <- py_div p1 p0 ;;
      let log_price := np_log q_price in
      q_eps <- py_div eps1 eps0 ;;
      let log_eps := np_log q_eps in
      q_mult <- py_div pe1 pe0 ;;
      let log_mult := np_log q_mult in
      let denom := if fgt (fabs log_price) (Fin 1e-12) then log_price else NaN in
      share_eps <- (if isfinite denom then py_div log_eps denom else Returns NaN) ;;
      share_mult <- (if isfinite denom then py_div log_mult denom else Returns NaN) ;;
      Returns {|
        start := date s;
        end_ := date e;
        log_price := log_price;
        log_eps := log_eps;
        log_multiple := log_mult;
        share_eps_pct :=
          if notna share_eps then fmul (Fin 100) share_eps else NaN;
        share_multiple_pct :=
          if notna share_mult then fmul (Fin 100) share_mult else NaN
      |}
  end.

(* ================================================================= *)
(** ** pandas and Python primitives on lists *)

Section Frames.

Variable A : Type.

(** [sort_values(key)]: rows in ascending key order.  pandas' default
    algorithm does not promise an order among equal keys; the embedding
    places a row after the rows of equal key that came before it, so equal
    keys stay in input order. *)
Fixpoint insert_by (key : A -> Z) (x : A) (l : list A) : list A :=
  match l with
  | [] => [x]
  | y :: tl => if (key x <? key y)%Z then x :: l else y :: insert_by key x tl
  end.

Definition sort_values (key : A -> Z) (l : list A) : list A :=
  fold_left (fun acc x => insert_by key x acc) l [].

(** [frame.iloc[start:stop]], with Python's reading of the two bounds: a
    negative bound counts from the end, and both are clamped to
    [0 .. len]. *)
Definition slice_bound (n k : Z) : Z :=
  if (k <? 0)%Z then Z.max 0 (k + n) else Z.min k n.

Definition iloc (l : list A) (start stop : Z) : list A :=
  let n := Z.of_nat (List.length l) in
  let a := slice_bound n start in
  let b := slice_bound n stop in
  firstn (Z.to_nat (b - a)) (skipn (Z.to_nat a) l).

End Frames.

Arguments insert_by {A} key x l.
Arguments sort_values {A} key l.
Arguments iloc {A} l start stop.

(** [range(lo, hi)]. *)
Definition range (lo hi : Z) : list Z :=
  map (fun k => (lo + Z.of_nat k)%Z) (seq 0 (Z.to_nat (hi - lo))).

(* ================================================================= *)
(** ** Rolling decomposition *)

(** One row of the frame [rolling_decomposition] returns. *)
Record RollingRow : Type := mkRollingRow {
  row_ticker : string;
  row_start : Month;
  row_end : Month;
  row_log_price : float;
  row_log_eps : float;
  row_log_multiple : float;
  stable_for_shares : bool;
  row_share_eps_pct : float;
  row_share_multiple_pct : float
}.

(** The loop body after a successful [decompose_endpoints]: the row that is
    appended for the decomposition [d] of one window. *)
Definition window_row (ticker : string) (min_abs_log_price share_cap_pct : float)
    (d : Decomposition) : RollingRow :=
  let stable :=
    isfinite (log_price d) && fge (fabs (log_price d)) min_abs_log_price in
  {|
    row_ticker := ticker;
    row_start := start d;
    row_end := end_ d;
    row_log_price := log_price d;
    row_log_eps := log_eps d;
    row_log_multiple := log_multiple d;
    stable_for_shares := stable;
    row_share_eps_pct :=
      if stable
      then np_clip (share_eps_pct d) (fneg share_cap_pct) share_cap_pct
      else NaN;
    row_share_multiple_pct :=
      if stable
      then np_clip (share_multiple_pct d) (fneg share_cap_pct) share_cap_pct
      else NaN
  |}.

(** The window the loop looks at for index [i]. *)
Definition window (p : list Row) (window_months i : Z) : list Row :=
  iloc p (i - window_months) (i + 1).

(** One iteration: [except Exception: continue] drops the window, whatever
    was raised. *)
Definition rolling_step (p : list Row) (ticker : string) (window_months : Z)
    (min_abs_log_price share_cap_pct : float)
    (rows : list RollingRow) (i : Z) : list RollingRow :=
  match decompose_endpoints (window p window_months i) with
  | Raises _ => rows
  | Returns d => rows ++ [window_row ticker min_abs_log_price share_cap_pct d]
  end.

Definition rolling_decomposition (panel : list Row) (ticker : string)
    (window_months : Z) (min_abs_log_price share_cap_pct : float)
    : outcome (list RollingRow) :=
  let p := sort_values date (dropna panel) in
  let rows :=
    fold_left
      (rolling_step p ticker window_months min_abs_log_price share_cap_pct)
      (range window_months (Z.of_nat (List.length p))) [] in
  Returns rows.

(* ================================================================= *)
(** ** The monthly loader *)

(** What [pd.to_datetime(..., errors="coerce")] makes of a date cell;
    [None] is [NaT]. *)
Record Timestamp : Type := mkTimestamp {
  year : Z;
  month : Z;
  day : Z
}.

(** A row of the file once the three columns are picked and
    [pd.to_numeric(..., errors="coerce")] is applied to the two numeric
    ones ([NaN] for a cell that is empty or not a number). *)
Record RawRow : Type := mkRawRow {
  raw_date : option Timestamp;
  raw_price : float;
  raw_pe : float
}.

(** [to_month_start]: [.dt.to_period("M").dt.to_timestamp()]. *)
Definition to_month_start (x : option Timestamp) : option Month :=
  option_map (fun t => ((year t - 1970) * 12 + (month t - 1))%Z) x.

(** The frame [out] between line 69 and line 76: date, price, pe. *)
Record Monthly : Type := mkMonthly {
  m_date : Month;
  m_price : float;
  m_pe : float
}.

(** Lines 57-70: the three derived columns, then
    [dropna(subset=["date"])]. *)
Definition normalize (raw : list RawRow) : list Monthly :=
  flat_map
    (fun r =>
       match to_month_start (raw_date r) with
       | Some d => [ {| m_date := d;
                        m_price := safe_pos (raw_price r);
                        m_pe := safe_pos (raw_pe r) |} ]
       | None => []
       end)
    raw.

(** [GroupBy.last] works column by column and skips missing cells: the
    last cell of the group that is not [NaN], [NaN] when there is none. *)
Fixpoint last_valid (cells : list float) : float :=
  match cells with
  | [] => NaN
  | x :: tl => let later := last_valid tl in if notna later then later else x
  end.

(** The group keys, ascending and without repetition
    ([groupby(..., sort=True)]). *)
Fixpoint insert_key (k : Z) (l : list Z) : list Z :=
  match l with
  | [] => [k]
  | y :: tl =>
      if (k <? y)%Z then k :: l
      else if (k =? y)%Z then l
      else y :: insert_key k tl
  end.

Definition group_keys (l : list Z) : list Z :=
  fold_left (fun acc k => insert_key k acc) l [].

(** [out.groupby("date", as_index=False).last()]. *)
Definition groupby_date_last (rows : list Monthly) : list Monthly :=
  map
    (fun k =>
       let group := filter (fun r => (m_date r =? k)%Z) rows in
       {| m_date := k;
          m_price := last_valid (map m_price group);
          m_pe := last_valid (map m_pe group) |})
    (group_keys (map m_date rows)).

(** Line 76 on one row: [safe_pos(price / pe)], a pandas division. *)
Definition implied_eps (price pe : float) : float :=
  safe_pos (ieee_div price pe).

Definition load_pe_monthly (raw : list RawRow) : list Row :=
  let out := sort_values m_date (normalize raw) in
  let out := groupby_date_last out in
  map
    (fun r =>
       {| date := m_date r;
          price := m_price r;
          pe := m_pe r;
          eps := implied_eps (m_price r) (m_pe r) |})
    out.

(* ================================================================= *)
(** ** Specification vocabulary *)

Section Vocabulary.

Local Open Scope R_scope.

(** A cell that holds a value above zero. *)
Definition positive (x : float) : Prop :=
  match x with
  | Fin v => 0 < v
  | PInf => True
  | NInf | NaN => False
  end.

(** What [safe_pos] leaves in a column: nothing, or a value above zero. *)
Definition missing_or_positive (x : float) : Prop :=
  x = NaN \/ positive x.

(** A row as the loader leaves it. *)
Definition cleaned (r : Row) : Prop :=
  missing_or_positive (price r) /\ missing_or_positive (pe r) /\
  missing_or_positive (eps r).

(** A valid observation: price and multiple are positive reals and the
    implied value is their quotient. *)
Definition valid_obs (r : Row) : Prop :=
  exists p m : R,
    0 < p /\ 0 < m /\ price r = Fin p /\ pe r = Fin m /\ eps r = Fin (p / m).

(** The filter of the specification: the three columns defined and
    positive. *)
Definition defined_positive (x : float) : bool :=
  notna x && fgt x (Fin 0).

(** A valid row: price, multiple and implied value defined and positive. *)
Definition valid_row (r : Row) : bool :=
  defined_positive (price r) && defined_positive (pe r) &&
  defined_positive (eps r).

(** A percentage share as section 4.3 of the specification words it:
    [100 * num / log_price_change] when [|log_price_change| > 1e-12],
    undefined otherwise. *)
Definition share_of (num log_price_change : R) : float :=
  if Rltb 1e-12 (Rabs log_price_change)
  then Fin (100 * (num / log_price_change))
  else NaN.

(** The sign of a real: 1, -1 or 0. *)
Definition Rsign (v : R) : R :=
  if Rlt_dec 0 v then 1 else if Rlt_dec v 0 then -1 else 0.

(** Clamping as the specification words it: a share [s] with
    [|s| > cap] becomes [sign(s) * cap], any other is left alone. *)
Definition clamp_spec (cap : R) (s : float) : float :=
  match s with
  | Fin v => if Rlt_dec cap (Rabs v) then Fin (Rsign v * cap) else Fin v
  | PInf => Fin (1 * cap)
  | NInf => Fin (-1 * cap)
  | NaN => NaN
  end.

(** The deriver on the two cells of one row of the file: lines 62 and 67
    clean the cells, line 76 divides and cleans again. *)
Definition implied_value (price pe : float) : float :=
  implied_eps (safe_pos price) (safe_pos pe).

(** The first and the last row of a frame. *)
Definition endpoints (p : list Row) : option (Row * Row) :=
  match p with
  | [] => None
  | s :: rest => Some (s, last rest s)
  end.

(** The frame the loop runs over. *)
Definition sorted_valid (panel : list Row) : list Row :=
  sort_values date (dropna panel).

(** What one window adds to [rows]: one row, or nothing when the
    decomposition raised. *)
Definition window_rows (p : list Row) (ticker : string) (window_months : Z)
    (min_abs_log_price share_cap_pct : float) (i : Z) : list RollingRow :=
  match decompose_endpoints (window p window_months i) with
  | Raises _ => []
  | Returns d => [window_row ticker min_abs_log_price share_cap_pct d]
  end.

(** Ascending key order, the order [sort_values] establishes. *)
Definition by_key {B : Type} (key : B -> Z) (x y : B) : Prop :=
  (key x <= key y)%Z.

(** The rows of the file that fall in month [k], in file order. *)
Definition month_rows (k : Month) (raw : list RawRow) : list Monthly :=
  filter (fun r => (m_date r =? k)%Z) (normalize raw).

(** A cell that is missing or holds a positive real. *)
Definition missing_or_real (x : float) : Prop :=
  x = NaN \/ exists v : R, x = Fin v /\ 0 < v.

End Vocabulary.

(* ================================================================= *)
(** ** Worked examples *)

Section Examples.

Local Open Scope R_scope.

(** The example of the specification: January (price 100, multiple 10) and
    December of the same year (price 150, multiple 12). *)
Definition example_jan : Row := mkRow 600%Z (Fin 100) (Fin 10) (Fin (100 / 10)).

Definition example_dec : Row := mkRow 611%Z (Fin 150) (Fin 12) (Fin (150 / 12)).

Definition example_panel : list Row := [example_jan; example_dec].

Definition example_decomposition : Decomposition :=
  {| start := 600%Z;
     end_ := 611%Z;
     log_price := Fin (ln (150 / 100));
     log_eps := Fin (ln ((150 / 12) / (100 / 10)));
     log_multiple := Fin (ln (12 / 10));
     share_eps_pct := share_of (ln ((150 / 12) / (100 / 10))) (ln (150 / 100));
     share_multiple_pct := share_of (ln (12 / 10)) (ln (150 / 100)) |}.

Definition example_row : RollingRow :=
  window_row "NVDA" (Fin 0.05) (Fin 200) example_decomposition.

(** The second example: two months at the same price.  The log price
    change is 0, below any positive threshold. *)
Definition flat_panel : list Row :=
  [ mkRow 600%Z (Fin 100) (Fin 10) (Fin (100 / 10));
    mkRow 601%Z (Fin 100) (Fin 8) (Fin (100 / 8)) ].

Definition flat_decomposition : Decomposition :=
  {| start := 600%Z;
     end_ := 601%Z;
     log_price := Fin (ln (100 / 100));
     log_eps := Fin (ln ((100 / 8) / (100 / 10)));
     log_multiple := Fin (ln (8 / 10));
     share_eps_pct := share_of (ln ((100 / 8) / (100 / 10))) (ln (100 / 100));
     share_multiple_pct := share_of (ln (8 / 10)) (ln (100 / 100)) |}.

Definition flat_row : RollingRow :=
  window_row "NVDA" (Fin 0.05) (Fin 200) flat_decomposition.

(** Two rows dated in January 2020: the first with price 100 and multiple
    10, the second, later in the file, with an empty price cell and
    multiple 12. *)
Definition january_twice : list RawRow :=
  [ mkRawRow (Some (mkTimestamp 2020 1 10)) (Fin 100) (Fin 10);
    mkRawRow (Some (mkTimestamp 2020 1 20)) NaN (Fin 12) ].

Definition january_last : RawRow :=
  mkRawRow (Some (mkTimestamp 2020 1 20)) NaN (Fin 12).

(** The first example as a file: two rows, dated inside January and inside
    December 2020. *)
Definition example_file : list RawRow :=
  [ mkRawRow (Some (mkTimestamp 2020 1 15)) (Fin 100) (Fin 10);
    mkRawRow (Some (mkTimestamp 2020 12 15)) (Fin 150) (Fin 12) ].

End Examples.

(* ================================================================= *)
(** ** Column helpers *)

(** [str.lower] on the letters A to Z; every other character is left as
    it is. *)
Definition lower_ascii (c : Ascii.ascii) : Ascii.ascii :=
  let n := Ascii.nat_of_ascii c in
  if ((65 <=? n) && (n <=? 90))%nat then Ascii.ascii_of_nat (n + 32) else c.

Fixpoint lower (s : string) : string :=
  match s with
  | EmptyString => EmptyString
  | String c tl => String (lower_ascii c) (lower tl)
  end.

(** A Python [dict] from strings to strings: a key keeps the place of its
    first insertion and the value of its last. *)
Definition dict : Type := list (string * string).

Fixpoint dict_set (k v : string) (d : dict) : dict :=
  match d with
  | [] => [(k, v)]
  | (k', v') :: tl =>
      if String.eqb k k' then (k, v) :: tl else (k', v') :: dict_set k v tl
  end.

Fixpoint dict_get (k : string) (d : dict) : option string :=
  match d with
  | [] => None
  | (k', v') :: tl => if String.eqb k k' then Some v' else dict_get k tl
  end.

(** [{c.lower(): c for c in df.columns}]. *)
Definition lower_index (columns : list string) : dict :=
  fold_left (fun d c => dict_set (lower c) c d) columns [].

(** The loop of [pick_col] over the candidates. *)
Fixpoint pick_first (index : dict) (candidates : list string) : option string :=
  match candidates with
  | [] => None
  | cand :: tl =>
      match dict_get (lower cand) index with
      | Some c => Some c
      | None => pick_first index tl
      end
  end.

(** [pick_col(df, candidates)], on the column names of [df]. *)
Definition pick_col (columns candidates : list string) : option string :=
  pick_first (lower_index columns) candidates.

(** A column answers a candidate when the two agree up to case. *)
Definition answers (c cand : string) : Prop := lower c = lower cand.

(* ================================================================= *)
(** ** The loader on a file *)

(** The synonyms [load_pe_monthly] accepts for each column, lines 53, 59
    and 64. *)
Definition date_candidates : list string :=
  ["date"; "month"; "timestamp"; "time"]%string.

Definition price_candidates : list string :=
  ["adj close"; "adj_close"; "adjclose"; "price"; "close"]%string.

Definition pe_candidates : list string :=
  ["pe"; "p/e"; "pe_ratio"; "trailing_pe"; "pe_ttm"]%string.

Definition no_date_column (name : string) : exn :=
  ValueError (name ++ ": couldn't find a Date column.").

Definition no_price_column (name : string) : exn :=
  ValueError (name ++ ": couldn't find Adj Close / price column.").

Definition no_pe_column (name : string) : exn :=
  ValueError (name ++ ": couldn't find PE column.").

(** The rows of three columns side by side. *)
Fixpoint zip_rows (dates : list (option Timestamp)) (prices pes : list float)
    : list RawRow :=
  match dates, prices, pes with
  | d :: dates', x :: prices', y :: pes' =>
      mkRawRow d x y :: zip_rows dates' prices' pes'
  | _, _, _ => []
  end.

Section Csv.

(** A cell as [pd.read_csv] delivers it, and pandas' conversions of a whole
    column, which the script takes from the library:
    [pd.to_datetime(col, errors="coerce")] and
    [pd.to_numeric(col, errors="coerce")] on a column of the file, and
    [pd.to_numeric] on a column of month starts. *)
Variable Cell : Type.
Variable to_datetime : list Cell -> list (option Timestamp).
Variable to_numeric : list Cell -> list float.
Variable dates_to_numeric : list (option Month) -> list float.

(** The file as read: its header and, for each name, the cells below. *)
Record CsvFile : Type := mkCsvFile {
  header : list string;
  cells : string -> list Cell
}.

(** A column of the frame: as read, or one of the derived columns the
    loader stores back into the frame. *)
Inductive Series : Type :=
| Cells (l : list Cell)
| Dates (l : list (option Month))
| Floats (l : list float).

Record DataFrame : Type := mkDataFrame {
  columns : list string;
  series : string -> Series
}.

Definition read_csv (file : CsvFile) : DataFrame :=
  {| columns := header file; series := fun c => Cells (cells file c) |}.

(** [df[name] = s]: an existing column is replaced where it stands, a new
    one is added at the end. *)
Definition set_item (name : string) (s : Series) (df : DataFrame) : DataFrame :=
  {| columns :=
       if existsb (String.eqb name) (columns df)
       then columns df
       else columns df ++ [name];
     series := fun c => if String.eqb c name then s else series df c |}.

(** [pd.to_numeric(df[c], errors="coerce")]. *)
Definition numeric (s : Series) : list float :=
  match s with
  | Cells l => to_numeric l
  | Floats l => l
  | Dates l => dates_to_numeric l
  end.

(** [load_pe_monthly(path)], with [path.name] and the frame of the file.
    Lines 57, 62 and 67 store the derived columns in the frame before the
    next column is picked; lines 69 to 78 are [load_pe_monthly] on the rows
    of the three columns, which cleans dates and numbers row by row. *)
Definition load_pe_monthly_csv (name : string) (file : CsvFile)
    : outcome (list Row) :=
  let df := read_csv file in
  match pick_col (columns df) date_candidates with
  | None => Raises (no_date_column name)
  | Some date_col =>
      let dates := to_datetime (cells file date_col) in
      let df := set_item "date" (Dates (map to_month_start dates)) df in
      match pick_col (columns df) price_candidates with
      | None => Raises (no_price_column name)
      | Some price_col =>
          let prices := numeric (series df price_col) in
          let df := set_item "price" (Floats (map safe_pos prices)) df in
          match pick_col (columns df) pe_candidates with
          | None => Raises (no_pe_column name)
          | Some pe_col =>
              let pes := numeric (series df pe_col) in
              Returns (load_pe_monthly (zip_rows dates prices pes))
          end
      end
  end.

(** Some column of the header answers one of the candidates. *)
Definition has_column (file : CsvFile) (candidates : list string) : Prop :=
  exists c cand, In c (header file) /\ In cand candidates /\ answers c cand.

End Csv.

Arguments header {Cell} c.
Arguments cells {Cell} c _.
Arguments has_column {Cell} file candidates.
Arguments columns {Cell} d.
Arguments series {Cell} d _.
Arguments read_csv {Cell} file.
Arguments set_item {Cell} name s df.

(* ================================================================= *)
(** ** A panel written out and read again *)

(** [.dt.to_timestamp()] of a month: its first day. *)
Definition month_start (k : Month) : Timestamp :=
  {| year := 1970 + k / 12; month := k mod 12 + 1; day := 1 |}.

(** The month a date falls in, as [to_month_start] numbers it. *)
Definition month_ordinal (t : Timestamp) : Month :=
  ((year t - 1970) * 12 + (month t - 1))%Z.

(** A row of a loaded panel as a row of a file: what [to_csv] followed by
    [read_csv] makes of its date, price and pe cells. *)
Definition as_raw (r : Row) : RawRow :=
  {| raw_date := Some (month_start (date r));
     raw_price := price r;
     raw_pe := pe r |}.

(* ================================================================= *)
(** ** Prices in another unit *)

(** A row with its price, and so its implied value, multiplied by [k];
    the multiple is a ratio and stays. *)
Definition rescale (k : R) (r : Row) : Row :=
  {| date := date r;
     price := fmul (Fin k) (price r);
     pe := pe r;
     eps := fmul (Fin k) (eps r) |}.

(* ================================================================= *)
(** ** The driver *)

(** Order of two dates (both at midnight): year, then month, then day. *)
Definition ts_leb (a b : Timestamp) : bool :=
  (year a <? year b)%Z ||
  ((year a =? year b)%Z &&
   ((month a <? month b)%Z ||
    ((month a =? month b)%Z && (day a <=? day b)%Z))).

(** Lines 256 to 259: the optional [--start] and [--end] filters on the
    date column, which holds month starts. *)
Definition filter_dates (start_dt end_dt : option Timestamp) (panel : list Row)
    : list Row :=
  let panel :=
    match start_dt with
    | Some s => filter (fun r => ts_leb s (month_start (date r))) panel
    | None => panel
    end in
  match end_dt with
  | Some e => filter (fun r => ts_leb (month_start (date r)) e) panel
  | None => panel
  end.

(** The options of the command line that the loop reads. *)
Record Args : Type := mkArgs {
  arg_tickers : list string;
  arg_start : option Timestamp;
  arg_end : option Timestamp;
  arg_rolling_months : Z;
  arg_min_abs_log_price : float;
  arg_share_cap_pct : float
}.

(** The two accumulators of the loop that feed the output files: a summary
    row is a ticker with its endpoint decomposition (the dates are written
    out as ISO strings, which is left out here), a rolling frame is the
    frame of one ticker. *)
Record Collected : Type := mkCollected {
  summary_rows : list (string * Decomposition);
  rolling_frames : list (list RollingRow)
}.

Section Driver.

Variable Cell : Type.
Variable to_datetime : list Cell -> list (option Timestamp).
Variable to_numeric : list Cell -> list float.
Variable dates_to_numeric : list (option Month) -> list float.

(** The valuation directory: the file of a ticker, [None] when it is not
    there or [pd.read_csv] cannot read it (both end the iteration). *)
Variable files : string -> option (CsvFile Cell).

(** One iteration of the loop of [main], lines 243 to 321, without the
    prints, the diagnostics and the optional panel export. *)
Definition main_step (args : Args) (acc : Collected) (t : string)
    : outcome Collected :=
  match files t with
  | None => Returns acc
  | Some file =>
      match load_pe_monthly_csv Cell to_datetime to_numeric dates_to_numeric
              (t ++ "_pe_monthly.csv") file with
      | Raises _ => Returns acc
      | Returns panel =>
          let panel := filter_dates (arg_start args) (arg_end args) panel in
          match decompose_endpoints panel with
          | Raises _ => Returns acc
          | Returns d =>
              let summary := summary_rows acc ++ [(t, d)] in
              roll <- rolling_decomposition panel t (arg_rolling_months args)
                        (arg_min_abs_log_price args) (arg_share_cap_pct args) ;;
              Returns {|
                summary_rows := summary;
                rolling_frames :=
                  match roll with
                  | [] => rolling_frames acc
                  | _ :: _ => rolling_frames acc ++ [roll]
                  end
              |}
          end
      end
  end.

Fixpoint main_loop (args : Args) (acc : Collected) (tickers : list string)
    : outcome Collected :=
  match tickers with
  | [] => Returns acc
  | t :: rest => acc' <- main_step args acc t ;; main_loop args acc' rest
  end.

(** The loop of [main] from empty accumulators. *)
Definition main_collect (args : Args) : outcome Collected :=
  main_loop args {| summary_rows := []; rolling_frames := [] |} (arg_tickers args).

(** The panel the loop decomposes for a ticker: loaded, then filtered. *)
Definition ticker_panel (args : Args) (t : string) : option (list Row) :=
  match files t with
  | None => None
  | Some file =>
      match load_pe_monthly_csv Cell to_datetime to_numeric dates_to_numeric
              (t ++ "_pe_monthly.csv") file with
      | Raises _ => None
      | Returns panel =>
          Some (filter_dates (arg_start args) (arg_end args) panel)
      end
  end.

End Driver.

(** *** A valuation directory with one file *)

(** Cells of an example file: a date or a number, already typed. *)
Inductive ExampleCell : Type :=
| DayCell (t : Timestamp)
| NumberCell (f : float).

Definition example_to_datetime (l : list ExampleCell) : list (option Timestamp) :=
  map (fun c => match c with DayCell t => Some t | NumberCell _ => None end) l.

Definition example_to_numeric (l : list ExampleCell) : list float :=
  map (fun c => match c with NumberCell f => f | DayCell _ => NaN end) l.

Definition example_dates_to_numeric (l : list (option Month)) : list float :=
  map (fun _ => NaN) l.

(** The first example as the file [build_pe.py] writes it: columns Date,
    Price, EPS and PE. *)
Definition example_csv : CsvFile ExampleCell :=
  {| header := ["Date"; "Price"; "EPS"; "PE"]%string;
     cells := fun c =>
       if String.eqb c "Date" then
         [DayCell (mkTimestamp 2020 1 15); DayCell (mkTimestamp 2020 12 15)]
       else if String.eqb c "Price" then
         [NumberCell (Fin 100); NumberCell (Fin 150)]
       else if String.eqb c "EPS" then
         [NumberCell (Fin 10); NumberCell (Fin 12.5)]
       else if String.eqb c "PE" then
         [NumberCell (Fin 10); NumberCell (Fin 12)]
       else [] |}.

Definition example_files (t : string) : option (CsvFile ExampleCell) :=
  if String.eqb t "NVDA" then Some example_csv else None.

Definition example_args : Args :=
  {| arg_tickers := ["NVDA"; "AMD"]%string;
     arg_start := None;
     arg_end := None;
     arg_rolling_months := 1;
     arg_min_abs_log_price := Fin 0.05;
     arg_share_cap_pct := Fin 200 |}.

Definition example_collected : Collected :=
  {| summary_rows := [("NVDA"%string, example_decomposition)];
     rolling_frames := [[example_row]] |}.

(* ================================================================= *)
(** ** Division within the range of doubles *)

Section DoubleRange.

Local Open Scope R_scope.

(** Half of the smallest positive double, 2^-1075: a quotient of this size
    or less is rounded to zero.  The halfway point above the largest
    double, 2^1024 - 2^970: a quotient of this size or more is rounded to
    an infinity. *)
Definition underflow_bound : R := / IZR (2 ^ 1075).
Definition overflow_bound : R := IZR (2 ^ 1024) - IZR (2 ^ 970).

(** Rounding of a real between the two bounds to the nearest double, as
    the machine does it. *)
Variable nearest : R -> R.

(** The double a real quotient is rounded to. *)
Definition round_double (q : R) : float :=
  if Rle_dec (Rabs q) underflow_bound then Fin 0
  else if Rle_dec overflow_bound (Rabs q) then signed_inf (Rltb 0 q)
  else Fin (nearest q).

(** The division of pandas on doubles: [ieee_div], with the quotient of
    two finite numbers rounded to a double. *)
Definition double_div (x y : float) : float :=
  match x, y with
  | Fin a, Fin b => if Reqb b 0 then ieee_div x y else round_double (a / b)
  | _, _ => ieee_div x y
  end.

(** The deriver on the two cells of one row, lines 62, 67 and 76, with the
    division of doubles. *)
Definition implied_value_double (price pe : float) : float :=
  safe_pos (double_div (safe_pos price) (safe_pos pe)).

End DoubleRange.

(* ================================================================= *)
(** ** Three months *)

Section ThreeMonths.

Local Open Scope R_scope.

Definition example_jun : Row := mkRow 605%Z (Fin 120) (Fin 8) (Fin (120 / 8)).

Definition three_months : list Row := [example_jan; example_jun; example_dec].

Definition early_decomposition : Decomposition :=
  {| start := 600%Z;
     end_ := 605%Z;
     log_price := Fin (ln (120 / 100));
     log_eps := Fin (ln ((120 / 8) / (100 / 10)));
     log_multiple := Fin (ln (8 / 10));
     share_eps_pct := share_of (ln ((120 / 8) / (100 / 10))) (ln (120 / 100));
     share_multiple_pct := share_of (ln (8 / 10)) (ln (120 / 100)) |}.

Definition late_decomposition : Decomposition :=
  {| start := 605%Z;
     end_ := 611%Z;
     log_price := Fin (ln (150 / 120));
     log_eps := Fin (ln ((150 / 12) / (120 / 8)));
     log_multiple := Fin (ln (12 / 8));
     share_eps_pct := share_of (ln ((150 / 12) / (120 / 8))) (ln (150 / 120));
     share_multiple_pct := share_of (ln (12 / 8)) (ln (150 / 120)) |}.

Definition early_row : RollingRow :=
  window_row "NVDA" (Fin 0.05) (Fin 200) early_decomposition.

Definition late_row : RollingRow :=
  window_row "NVDA" (Fin 0.05) (Fin 200) late_decomposition.

End ThreeMonths.

(* ================================================================= *)
(** ** Proof automation *)

(** Splits on every comparison of reals left in the goal. *)
Ltac split_real_tests :=
  unfold Rltb, Rleb, Reqb;
  repeat match goal with
    | |- context [Rlt_dec ?a ?b] => destruct (Rlt_dec a b)
    | |- context [Rle_dec ?a ?b] => destruct (Rle_dec a b)
    | |- context [Req_dec_T ?a ?b] => destruct (Req_dec_T a b)
    end.

(** Closes the two directions of an equivalence, and a boundary case, whose
    sides are all absurd by constructors. *)
Ltac both_absurd :=
  split;
  [ split; [discriminate | intros (? & ? & _); discriminate]
  | intros ? ?; discriminate ].

(* ================================================================= *)
(** ** Comparisons on reals *)

Section RealTests.

Local Open Scope R_scope.

Lemma Rltb_true (a b : R) : a < b -> Rltb a b = true.
Proof. intros H. unfold Rltb. destruct (Rlt_dec a b); [reflexivity | contradiction]. Qed.

Lemma Rltb_false (a b : R) : b <= a -> Rltb a b = false.
Proof. intros H. unfold Rltb. destruct (Rlt_dec a b); [lra | reflexivity]. Qed.

Lemma Rltb_iff (a b : R) : Rltb a b = true <-> a < b.
Proof. unfold Rltb. destruct (Rlt_dec a b); split; intros; try easy. Qed.

Lemma Rleb_true (a b : R) : a <= b -> Rleb a b = true.
Proof. intros H. unfold Rleb. destruct (Rle_dec a b); [reflexivity | contradiction]. Qed.

Lemma Rleb_false (a b : R) : b < a -> Rleb a b = false.
Proof. intros H. unfold Rleb. destruct (Rle_dec a b); [lra | reflexivity]. Qed.

Lemma Rleb_iff (a b : R) : Rleb a b = true <-> a <= b.
Proof. unfold Rleb. destruct (Rle_dec a b); split; intros; try easy. Qed.

Lemma Reqb_true (a b : R) : a = b -> Reqb a b = true.
Proof. intros H. unfold Reqb. destruct (Req_dec_T a b); [reflexivity | contradiction]. Qed.

Lemma Reqb_false (a b : R) : a <> b -> Reqb a b = false.
Proof. intros H. unfold Reqb. destruct (Req_dec_T a b); [contradiction | reflexivity]. Qed.

End RealTests.


(* ================================================================= *)
(** ** The implied-value deriver *)

Section ImpliedValue.

Local Open Scope R_scope.

Lemma safe_pos_positive (x : float) : positive x -> safe_pos x = x.
Proof.
  destruct x; simpl; try contradiction; intros H; try reflexivity.
  unfold safe_pos, fgt; simpl. now rewrite Rltb_true.
Qed.

Lemma safe_pos_not_positive (x : float) : ~ positive x -> safe_pos x = NaN.
Proof.
  destruct x; simpl; intros H; try reflexivity; try (exfalso; now apply H).
  unfold safe_pos, fgt; simpl. rewrite Rltb_false; [reflexivity | lra].
Qed.

Lemma safe_pos_cleaned (x : float) : missing_or_positive (safe_pos x).
Proof.
  destruct x; unfold safe_pos, fgt, missing_or_positive; simpl; auto.
  unfold Rltb. destruct (Rlt_dec 0 r); simpl; auto.
Qed.

Lemma implied_eps_NaN_l (y : float) : implied_eps NaN y = NaN.
Proof. reflexivity. Qed.

Lemma implied_eps_NaN_r (x : float) : implied_eps x NaN = NaN.
Proof. destruct x; reflexivity. Qed.

Lemma implied_eps_quotient (p m : R) :
  0 < p -> 0 < m -> implied_eps (Fin p) (Fin m) = Fin (p / m).
Proof.
  intros Hp Hm. unfold implied_eps. simpl. rewrite Reqb_false by lra.
  apply safe_pos_positive. simpl. now apply Rdiv_lt_0_compat.
Qed.

(** The loader applies the deriver to the cells of a file of one row. *)
Lemma load_pe_monthly_one_row (t : Timestamp) (x y : float) :
  load_pe_monthly [mkRawRow (Some t) x y] =
  [mkRow ((year t - 1970) * 12 + (month t - 1))%Z
         (safe_pos x) (safe_pos y) (implied_value x y)].
Proof.
  unfold load_pe_monthly, normalize, sort_values, groupby_date_last, group_keys.
  simpl. rewrite Z.eqb_refl. simpl. unfold implied_value.
  destruct (safe_pos x), (safe_pos y); reflexivity.
Qed.

(** With quotients taken as exact reals: on a pair of reals above zero the
    deriver returns their quotient, on any pair in which a cell is missing,
    zero or negative it returns the missing value. *)
Lemma implied_value_exact :
  (forall p m : R, 0 < p -> 0 < m -> implied_value (Fin p) (Fin m) = Fin (p / m)) /\
  (forall x y : float, ~ (positive x /\ positive y) -> implied_value x y = NaN).
Proof.
  split.
  - intros p m Hp Hm. unfold implied_value.
    rewrite !safe_pos_positive by assumption. now apply implied_eps_quotient.
  - intros x y H. unfold implied_value.
    destruct (fgt x (Fin 0)) eqn:Hx.
    + assert (Hy : ~ positive y).
      { intro Hy. apply H. split; [| exact Hy].
        destruct x; simpl in *; try easy. now apply Rltb_iff. }
      rewrite (safe_pos_not_positive y Hy). apply implied_eps_NaN_r.
    + unfold safe_pos at 1. rewrite Hx. apply implied_eps_NaN_l.
Qed.

Lemma underflow_bound_pos : 0 < underflow_bound.
Proof.
  unfold underflow_bound. apply Rinv_0_lt_compat. apply IZR_lt. reflexivity.
Qed.

Lemma round_double_positive (nearest : R -> R) (q : R) :
  0 < q ->
  round_double nearest q =
  if Rle_dec q underflow_bound then Fin 0
  else if Rle_dec overflow_bound q then PInf
  else Fin (nearest q).
Proof.
  intros Hq. unfold round_double. rewrite (Rabs_pos_eq q) by lra.
  destruct (Rle_dec q underflow_bound); [reflexivity |].
  destruct (Rle_dec overflow_bound q); [| reflexivity].
  now rewrite Rltb_true.
Qed.

(** C8, amended.  On doubles the deriver returns the quotient of price and
    multiple, rounded to a double, when both are above zero and the
    quotient is not rounded to zero; when the quotient underflows to zero,
    and on any pair in which a cell is missing, zero or negative, it
    returns the missing value.  It is a total function: nothing is
    raised. *)
Theorem implied_value_double_contract (nearest : R -> R) :
  (forall q : R, underflow_bound < q -> q < overflow_bound -> 0 < nearest q) ->
  (forall p m : R, 0 < p -> 0 < m ->
     implied_value_double nearest (Fin p) (Fin m) =
     if Rle_dec (p / m) underflow_bound then NaN
     else if Rle_dec overflow_bound (p / m) then PInf
     else Fin (nearest (p / m))) /\
  (forall x y : float,
     ~ (positive x /\ positive y) -> implied_value_double nearest x y = NaN).
Proof.
  intros Hnearest. split.
  - intros p m Hp Hm. unfold implied_value_double.
    rewrite (safe_pos_positive (Fin p) Hp), (safe_pos_positive (Fin m) Hm).
    unfold double_div. rewrite Reqb_false by lra.
    assert (Hq : 0 < p / m) by now apply Rdiv_lt_0_compat.
    rewrite (round_double_positive nearest (p / m) Hq).
    destruct (Rle_dec (p / m) underflow_bound) as [Hunder | Hunder].
    + apply safe_pos_not_positive. simpl. lra.
    + destruct (Rle_dec overflow_bound (p / m)) as [Hover | Hover].
      * reflexivity.
      * apply safe_pos_positive. simpl. apply Hnearest; lra.
  - intros x y H. unfold implied_value_double.
    destruct (fgt x (Fin 0)) eqn:Hx.
    + assert (Hy : ~ positive y).
      { intro Hy. apply H. split; [| exact Hy].
        destruct x; simpl in *; try easy. now apply Rltb_iff. }
      rewrite (safe_pos_not_positive y Hy).
      destruct (safe_pos x); reflexivity.
    + unfold safe_pos at 2. rewrite Hx. reflexivity.
Qed.

Lemma implied_value_double_contract_witness :
  (forall p m : R, 0 < p -> 0 < m ->
     implied_value_double (fun q => q) (Fin p) (Fin m) =
     if Rle_dec (p / m) underflow_bound then NaN
     else if Rle_dec overflow_bound (p / m) then PInf
     else Fin (p / m)) /\
  (forall x y : float,
     ~ (positive x /\ positive y) ->
     implied_value_double (fun q => q) x y = NaN).
Proof.
  apply (implied_value_double_contract (fun q => q)).
  intros q Hq _. pose proof underflow_bound_pos. lra.
Defined.

(** C8 as stated fails on doubles: price 1e-200 and multiple 1e200 are both
    above zero, their quotient is rounded to zero, and the deriver returns
    the missing value, not the quotient. *)
Lemma implied_value_underflows :
  0 < 1e-200 /\ 0 < 1e200 /\
  forall nearest : R -> R,
    implied_value_double nearest (Fin 1e-200) (Fin 1e200) = NaN /\
    implied_value_double nearest (Fin 1e-200) (Fin 1e200) <>
      Fin (1e-200 / 1e200).
Proof.
  assert (Hnan : forall nearest : R -> R,
             implied_value_double nearest (Fin 1e-200) (Fin 1e200) = NaN).
  { intros nearest. unfold implied_value_double.
    rewrite (safe_pos_positive (Fin 1e-200)), (safe_pos_positive (Fin 1e200))
      by (simpl; lra).
    unfold double_div. rewrite Reqb_false by lra.
    rewrite round_double_positive by lra.
    destruct (Rle_dec (1e-200 / 1e200) underflow_bound) as [_ | Hbig].
    - apply safe_pos_not_positive. simpl. lra.
    - exfalso. apply Hbig. unfold underflow_bound. lra. }
  split; [lra |]. split; [lra |]. intros nearest.
  split; [apply Hnan |]. rewrite Hnan. discriminate.
Qed.

(** Between the two bounds, and up to the rounding of the quotient, the
    division of doubles gives what the exact one gives. *)
Lemma implied_value_double_in_range (p m : R) :
  0 < p -> 0 < m -> underflow_bound < p / m < overflow_bound ->
  implied_value_double (fun q => q) (Fin p) (Fin m) = implied_value (Fin p) (Fin m).
Proof.
  intros Hp Hm [Hlo Hhi]. unfold implied_value_double, implied_value.
  rewrite (safe_pos_positive (Fin p) Hp), (safe_pos_positive (Fin m) Hm).
  rewrite implied_eps_quotient by assumption.
  unfold double_div. rewrite Reqb_false by lra.
  pose proof underflow_bound_pos as Hpos.
  rewrite round_double_positive by lra.
  destruct (Rle_dec (p / m) underflow_bound); [lra |].
  destruct (Rle_dec overflow_bound (p / m)); [lra |].
  apply safe_pos_positive. simpl. lra.
Qed.

End ImpliedValue.

(* ================================================================= *)
(** ** The endpoint decomposition *)

Section Endpoints.

Local Open Scope R_scope.

Lemma py_div_Fin (a b : R) : b <> 0 -> py_div (Fin a) (Fin b) = Returns (Fin (a / b)).
Proof. intros Hb. unfold py_div. simpl. now rewrite !Reqb_false. Qed.

Lemma np_log_Fin (a : R) : 0 < a -> np_log (Fin a) = Fin (ln a).
Proof. intros Ha. simpl. now rewrite Rltb_true. Qed.

Lemma py_div_positive (x y : float) :
  positive y -> py_div x y = Returns (ieee_div x y).
Proof.
  destruct y; simpl; try contradiction; try reflexivity.
  intros Hr. unfold py_div. now rewrite Reqb_false by lra.
Qed.

(** The second division of a share never raises: it is only reached with a
    finite divisor whose absolute value is above 1e-12. *)
Lemma share_division_returns (num lp : float) :
  exists share : float,
    (if isfinite (if fgt (fabs lp) (Fin 1e-12) then lp else NaN)
     then py_div num (if fgt (fabs lp) (Fin 1e-12) then lp else NaN)
     else Returns NaN) = Returns share.
Proof.
  destruct (fgt (fabs lp) (Fin 1e-12)) eqn:Hgt; simpl; [| now exists NaN].
  destruct lp as [v | | |]; simpl; try (now exists NaN).
  unfold fgt in Hgt. simpl in Hgt. apply Rltb_iff in Hgt.
  unfold py_div. rewrite Reqb_false.
  - now eexists.
  - intro Hv. subst v. rewrite Rabs_R0 in Hgt. lra.
Qed.

(** With at least two rows left after [dropna] and no zero in the first
    of them, the decomposition returns. *)
Lemma decompose_endpoints_returns (panel : list Row) (s : Row) (rest : list Row) :
  dropna panel = s :: rest -> rest <> [] ->
  positive (price s) -> positive (pe s) -> positive (eps s) ->
  exists d, decompose_endpoints panel = Returns d.
Proof.
  intros Hp Hrest Hprice Hpe Heps. unfold decompose_endpoints. rewrite Hp.
  destruct rest as [| r rest']; [congruence |].
  cbv beta iota zeta.
  rewrite (py_div_positive _ _ Hprice), (py_div_positive _ _ Heps),
    (py_div_positive _ _ Hpe).
  cbn [bind].
  destruct (share_division_returns
              (np_log (ieee_div (eps (last (r :: rest') s)) (eps s)))
              (np_log (ieee_div (price (last (r :: rest') s)) (price s))))
    as [se Hse].
  destruct (share_division_returns
              (np_log (ieee_div (pe (last (r :: rest') s)) (pe s)))
              (np_log (ieee_div (price (last (r :: rest') s)) (price s))))
    as [sm Hsm].
  rewrite Hse, Hsm. cbn [bind]. now eexists.
Qed.

(** The decomposition between two valid observations, in closed form. *)
Lemma decompose_endpoints_valid (panel : list Row) (s e : Row) (p0 m0 p1 m1 : R) :
  endpoints (dropna panel) = Some (s, e) ->
  (2 <= List.length (dropna panel))%nat ->
  0 < p0 -> 0 < m0 -> 0 < p1 -> 0 < m1 ->
  price s = Fin p0 -> pe s = Fin m0 -> eps s = Fin (p0 / m0) ->
  price e = Fin p1 -> pe e = Fin m1 -> eps e = Fin (p1 / m1) ->
  decompose_endpoints panel =
  Returns {|
    start := date s;
    end_ := date e;
    log_price := Fin (ln (p1 / p0));
    log_eps := Fin (ln ((p1 / m1) / (p0 / m0)));
    log_multiple := Fin (ln (m1 / m0));
    share_eps_pct := share_of (ln ((p1 / m1) / (p0 / m0))) (ln (p1 / p0));
    share_multiple_pct := share_of (ln (m1 / m0)) (ln (p1 / p0))
  |}.
Proof.
  intros Hends Hlen Hp0 Hm0 Hp1 Hm1 Hps Hms Hes Hpe He Hee.
  unfold decompose_endpoints.
  destruct (dropna panel) as [| s' [| r rest']] eqn:Hp;
    [simpl in Hlen; lia | simpl in Hlen; lia |].
  simpl in Hends. injection Hends as Hs He'. subst s'.
  change (match rest' with [] => r | _ :: _ => last rest' s end)
    with (last (r :: rest') s) in He'.
  cbv beta iota zeta. rewrite He'. rewrite Hps, Hms, Hes, Hpe, He, Hee.
  assert (Hq0 : 0 < p0 / m0) by now apply Rdiv_lt_0_compat.
  assert (Hq1 : 0 < p1 / m1) by now apply Rdiv_lt_0_compat.
  rewrite !py_div_Fin by lra. cbn [bind].
  rewrite !np_log_Fin by (apply Rdiv_lt_0_compat; assumption).
  unfold share_of, fgt. cbn [fabs flt].
  destruct (Rltb 1e-12 (Rabs (ln (p1 / p0)))) eqn:Hgate; cbn [isfinite bind].
  - apply Rltb_iff in Hgate.
    assert (Hnz : ln (p1 / p0) <> 0).
    { intro Hz. rewrite Hz, Rabs_R0 in Hgate. lra. }
    rewrite !py_div_Fin by assumption. reflexivity.
  - reflexivity.
Qed.

Lemma decompose_endpoints_two_rows (panel : list Row) (d : Decomposition) :
  decompose_endpoints panel = Returns d ->
  (2 <= List.length (dropna panel))%nat.
Proof.
  unfold decompose_endpoints.
  destruct (dropna panel) as [| s [| r rest]]; try discriminate.
  intros _. simpl. lia.
Qed.

(** The logarithms of the three quotients add up. *)
Lemma log_identity (p0 m0 p1 m1 : R) :
  0 < p0 -> 0 < m0 -> 0 < p1 -> 0 < m1 ->
  ln (p1 / p0) = ln ((p1 / m1) / (p0 / m0)) + ln (m1 / m0).
Proof.
  intros Hp0 Hm0 Hp1 Hm1.
  rewrite <- ln_mult.
  - f_equal. field. lra.
  - repeat apply Rdiv_lt_0_compat; assumption.
  - now apply Rdiv_lt_0_compat.
Qed.

Lemma example_decomposes :
  decompose_endpoints example_panel = Returns example_decomposition.
Proof.
  apply (decompose_endpoints_valid example_panel
           example_jan example_dec
           100 10 150 12);
    try reflexivity; try lra; simpl; lia.
Qed.

Lemma example_rows_valid : Forall valid_obs example_panel.
Proof.
  repeat constructor.
  - exists 100, 10. simpl. repeat split; lra.
  - exists 150, 12. simpl. repeat split; lra.
Qed.

(** C1.  Between two valid observations (price and multiple positive, the
    implied value their quotient) the three logarithms the decomposition
    returns are real numbers, and the price one is the sum of the value one
    and the multiple one. *)
Theorem log_price_change_is_sum (panel : list Row) (s e : Row) (d : Decomposition) :
  endpoints (dropna panel) = Some (s, e) ->
  valid_obs s -> valid_obs e ->
  decompose_endpoints panel = Returns d ->
  exists lp lv lm : R,
    log_price d = Fin lp /\ log_eps d = Fin lv /\ log_multiple d = Fin lm /\
    lp = lv + lm.
Proof.
  intros Hends (p0 & m0 & Hp0 & Hm0 & Hps & Hms & Hes)
    (p1 & m1 & Hp1 & Hm1 & Hpe & Hme & Hee) Hd.
  pose proof (decompose_endpoints_two_rows panel d Hd) as Hlen.
  rewrite (decompose_endpoints_valid panel s e p0 m0 p1 m1) in Hd by assumption.
  injection Hd as Hd. subst d. cbn [log_price log_eps log_multiple].
  exists (ln (p1 / p0)), (ln ((p1 / m1) / (p0 / m0))), (ln (m1 / m0)).
  repeat split. now apply log_identity.
Qed.

Lemma log_price_change_is_sum_witness :
  decompose_endpoints example_panel = Returns example_decomposition /\
  exists lp lv lm : R,
    log_price example_decomposition = Fin lp /\
    log_eps example_decomposition = Fin lv /\
    log_multiple example_decomposition = Fin lm /\
    lp = lv + lm.
Proof.
  split; [exact example_decomposes |].
  apply (log_price_change_is_sum example_panel
           example_jan example_dec
           example_decomposition).
  - reflexivity.
  - exists 100, 10. simpl. repeat split; lra.
  - exists 150, 12. simpl. repeat split; lra.
  - exact example_decomposes.
Defined.

(** On cleaned columns, a defined cell is a positive one, so [dropna] is
    the filter of the specification. *)
Lemma defined_positive_cleaned (x : float) :
  missing_or_positive x -> defined_positive x = notna x.
Proof.
  intros [-> | Hx]; [reflexivity |].
  destruct x; simpl in Hx; try contradiction; try reflexivity.
  unfold defined_positive, fgt. simpl. now rewrite Rltb_true.
Qed.

Lemma dropna_cleaned (panel : list Row) :
  Forall cleaned panel -> dropna panel = filter valid_row panel.
Proof.
  intros H. unfold dropna. apply filter_ext_in. intros r Hr.
  rewrite Forall_forall in H. destruct (H r Hr) as (Hp & Hm & He).
  unfold valid_row. now rewrite !defined_positive_cleaned.
Qed.

Lemma valid_row_positive (r : Row) :
  valid_row r = true -> positive (price r) /\ positive (pe r) /\ positive (eps r).
Proof.
  assert (Hpos : forall x, defined_positive x = true -> positive x).
  { intros x Hx. unfold defined_positive, fgt in Hx.
    destruct x; simpl in *; try easy. now apply Rltb_iff. }
  unfold valid_row. rewrite !andb_true_iff. intros [[Hp Hm] He]. auto.
Qed.

(** C3.  On a series whose cells are missing or positive, the endpoint
    decomposition raises its not-enough-rows error exactly when fewer than
    two rows have price, multiple and implied value all defined and
    positive; with two or more such rows it returns a result. *)
Theorem insufficient_data_iff (panel : list Row) :
  Forall cleaned panel ->
  (decompose_endpoints panel = Raises (ValueError not_enough_rows) <->
   (List.length (filter valid_row panel) < 2)%nat) /\
  ((2 <= List.length (filter valid_row panel))%nat ->
   exists d, decompose_endpoints panel = Returns d).
Proof.
  intros Hclean. pose proof (dropna_cleaned panel Hclean) as Hdrop.
  destruct (filter valid_row panel) as [| s [| r rest]] eqn:Hvalid.
  - unfold decompose_endpoints. rewrite Hdrop. simpl. split; [split |]; intros; [lia | reflexivity | lia].
  - unfold decompose_endpoints. rewrite Hdrop. simpl. split; [split |]; intros; [lia | reflexivity | lia].
  - assert (Hs : valid_row s = true).
    { assert (Hin : In s (filter valid_row panel)) by (rewrite Hvalid; now left).
      now apply filter_In in Hin. }
    destruct (valid_row_positive s Hs) as (Hp & Hm & He).
    destruct (decompose_endpoints_returns panel s (r :: rest) Hdrop) as [d Hd];
      try assumption; [discriminate |].
    split; [split |].
    + rewrite Hd. discriminate.
    + simpl. lia.
    + intros _. now exists d.
Qed.

Lemma example_rows_cleaned : Forall cleaned example_panel.
Proof.
  unfold example_panel. repeat apply Forall_cons; [| | apply Forall_nil];
    unfold cleaned, missing_or_positive; simpl; repeat split; right; lra.
Qed.

Lemma insufficient_data_iff_witness :
  (decompose_endpoints example_panel = Raises (ValueError not_enough_rows) <->
   (List.length (filter valid_row example_panel) < 2)%nat) /\
  ((2 <= List.length (filter valid_row example_panel))%nat ->
   exists d, decompose_endpoints example_panel = Returns d).
Proof.
  apply (insufficient_data_iff example_panel). exact example_rows_cleaned.
Defined.

End Endpoints.

(* ================================================================= *)
(** ** Frames: sorting, slicing, ranges *)

Section FrameFacts.

Variable A : Type.
Variable key : A -> Z.

Lemma insert_by_length (x : A) (l : list A) :
  List.length (insert_by key x l) = S (List.length l).
Proof.
  induction l as [| y tl IH]; simpl; [reflexivity |].
  destruct (key x <? key y)%Z; simpl; [reflexivity | now rewrite IH].
Qed.

Lemma insert_by_In (x y : A) (l : list A) :
  In y (insert_by key x l) <-> y = x \/ In y l.
Proof.
  induction l as [| z tl IH]; simpl.
  - intuition.
  - destruct (key x <? key z)%Z; simpl; [intuition | rewrite IH; intuition].
Qed.

Lemma sort_values_acc_length (l acc : list A) :
  List.length (fold_left (fun acc x => insert_by key x acc) l acc) =
  (List.length l + List.length acc)%nat.
Proof.
  revert acc. induction l as [| x tl IH]; intros acc; simpl; [reflexivity |].
  rewrite IH, insert_by_length. lia.
Qed.

Lemma sort_values_length (l : list A) :
  List.length (sort_values key l) = List.length l.
Proof. unfold sort_values. rewrite sort_values_acc_length. simpl. lia. Qed.

Lemma sort_values_acc_In (y : A) (l acc : list A) :
  In y (fold_left (fun acc x => insert_by key x acc) l acc) <-> In y l \/ In y acc.
Proof.
  revert acc. induction l as [| x tl IH]; intros acc; simpl; [intuition |].
  rewrite IH, insert_by_In. intuition.
Qed.

Lemma sort_values_In (y : A) (l : list A) :
  In y (sort_values key l) <-> In y l.
Proof. unfold sort_values. rewrite sort_values_acc_In. simpl. intuition. Qed.

Lemma iloc_In (y : A) (l : list A) (a b : Z) : In y (iloc l a b) -> In y l.
Proof.
  unfold iloc. intros H.
  set (n := Z.to_nat (slice_bound (Z.of_nat (List.length l)) a)) in *.
  rewrite <- (firstn_skipn n l). apply in_or_app. right.
  set (k := Z.to_nat _) in H.
  rewrite <- (firstn_skipn k (skipn n l)). apply in_or_app. now left.
Qed.

(** A slice [i : i + 1] taken at an index that is not negative holds one
    row at most. *)
Lemma iloc_single (l : list A) (i : Z) :
  (0 <= i)%Z -> (List.length (iloc l i (i + 1)) <= 1)%nat.
Proof.
  intros Hi. unfold iloc, slice_bound.
  destruct (Z.ltb_spec i 0); [lia |].
  destruct (Z.ltb_spec (i + 1) 0); [lia |].
  etransitivity; [apply firstn_le_length | lia].
Qed.

End FrameFacts.

Lemma range_In (lo hi i : Z) : In i (range lo hi) <-> (lo <= i < hi)%Z.
Proof.
  unfold range. rewrite in_map_iff. split.
  - intros (k & <- & Hk). apply in_seq in Hk. lia.
  - intros H. exists (Z.to_nat (i - lo)). split; [lia |]. apply in_seq. lia.
Qed.

Lemma range_empty (lo hi : Z) : (hi <= lo)%Z -> range lo hi = [].
Proof.
  intros H. unfold range. replace (Z.to_nat (hi - lo)) with 0%nat by lia.
  reflexivity.
Qed.

Lemma dropna_In (r : Row) (panel : list Row) : In r (dropna panel) -> In r panel.
Proof. unfold dropna. intros H. now apply filter_In in H. Qed.

Lemma dropna_length (panel : list Row) :
  (List.length (dropna panel) <= List.length panel)%nat.
Proof. apply filter_length_le. Qed.

Lemma last_In (l : list Row) (d : Row) : l <> [] -> In (last l d) l.
Proof.
  induction l as [| x tl IH]; [congruence |]. intros _.
  destruct tl as [| y tl']; [now left |].
  right. apply IH. discriminate.
Qed.

Lemma endpoints_In (p : list Row) (s e : Row) :
  endpoints p = Some (s, e) -> In s p /\ In e p.
Proof.
  destruct p as [| x rest]; simpl; [discriminate |].
  intros H. injection H as -> <-. split; [now left |].
  destruct rest as [| y rest']; [now left |].
  right. apply last_In. discriminate.
Qed.

Lemma decompose_endpoints_short (panel : list Row) :
  (List.length (dropna panel) < 2)%nat ->
  decompose_endpoints panel = Raises (ValueError not_enough_rows).
Proof.
  unfold decompose_endpoints.
  destruct (dropna panel) as [| s [| r rest]]; simpl; intros H;
    [reflexivity | reflexivity | lia].
Qed.

Lemma decompose_endpoints_ends (panel : list Row) (d : Decomposition) :
  decompose_endpoints panel = Returns d ->
  exists s e, endpoints (dropna panel) = Some (s, e).
Proof.
  intros H. apply decompose_endpoints_two_rows in H.
  destruct (dropna panel) as [| s rest]; simpl in *; [lia |].
  now exists s, (last rest s).
Qed.

(* ================================================================= *)
(** ** The rolling decomposition *)

Section Rolling.

Local Open Scope R_scope.

Lemma rolling_step_fold (p : list Row) (ticker : string) (w : Z) (m c : float)
    (l : list Z) (acc : list RollingRow) :
  fold_left (rolling_step p ticker w m c) l acc =
  acc ++ flat_map (window_rows p ticker w m c) l.
Proof.
  revert acc. induction l as [| i tl IH]; intros acc; simpl.
  - now rewrite app_nil_r.
  - rewrite IH. unfold rolling_step, window_rows.
    destruct (decompose_endpoints (window p w i)); simpl.
    + now rewrite <- app_assoc.
    + reflexivity.
Qed.

(** The rows of the output are the rows of the windows that decomposed. *)
Lemma rolling_rows_In (panel : list Row) (ticker : string) (w : Z) (m c : float)
    (rows : list RollingRow) (rec : RollingRow) :
  rolling_decomposition panel ticker w m c = Returns rows ->
  (In rec rows <->
   exists (i : Z) (d : Decomposition),
     In i (range w (Z.of_nat (List.length (sorted_valid panel)))) /\
     decompose_endpoints (window (sorted_valid panel) w i) = Returns d /\
     rec = window_row ticker m c d).
Proof.
  unfold rolling_decomposition. fold (sorted_valid panel).
  rewrite rolling_step_fold. simpl. intros H. injection H as <-.
  rewrite in_flat_map. split.
  - intros (i & Hi & Hrec). unfold window_rows in Hrec.
    destruct (decompose_endpoints (window (sorted_valid panel) w i)) as [d |] eqn:Hd;
      simpl in Hrec; [| contradiction].
    destruct Hrec as [<- | []]. now exists i, d.
  - intros (i & d & Hi & Hd & ->). exists i. split; [assumption |].
    unfold window_rows. rewrite Hd. now left.
Qed.

Lemma flat_map_nil (B C : Type) (f : B -> list C) (l : list B) :
  (forall x, In x l -> f x = []) -> flat_map f l = [].
Proof.
  induction l as [| x tl IH]; intros H; simpl; [reflexivity |].
  rewrite (H x) by now left. apply IH. intros y Hy. apply H. now right.
Qed.

(** C7.  When the series has no more valid rows than the window is wide,
    the rolling decomposition returns the empty sequence, and returns it
    normally. *)
Theorem window_exceeds_length (panel : list Row) (ticker : string) (w : Z)
    (m c : float) :
  (Z.of_nat (List.length (dropna panel)) <= w)%Z ->
  rolling_decomposition panel ticker w m c = Returns [].
Proof.
  intros H. unfold rolling_decomposition.
  rewrite sort_values_length, range_empty by assumption. reflexivity.
Qed.

Lemma window_exceeds_length_witness :
  rolling_decomposition example_panel "NVDA" 2 (Fin 0.05) (Fin 200) = Returns [].
Proof.
  apply (window_exceeds_length example_panel "NVDA" 2 (Fin 0.05) (Fin 200)).
  simpl. lia.
Defined.

(** With a window of width 0 every window is a single row, which the
    endpoint decomposition refuses; the refusal is swallowed. *)
Lemma window_rows_width_0 (p : list Row) (ticker : string) (m c : float) (i : Z) :
  (0 <= i)%Z -> window_rows p ticker 0 m c i = [].
Proof.
  intros Hi. unfold window_rows, window. rewrite Z.sub_0_r.
  rewrite decompose_endpoints_short; [reflexivity |].
  pose proof (iloc_single Row p i Hi). pose proof (dropna_length (iloc p i (i + 1))).
  lia.
Qed.

Lemma rolling_width_0 (panel : list Row) (ticker : string) (m c : float) :
  rolling_decomposition panel ticker 0 m c = Returns [].
Proof.
  unfold rolling_decomposition. rewrite rolling_step_fold. simpl. f_equal.
  apply flat_map_nil. intros i Hi. apply range_In in Hi.
  apply window_rows_width_0. lia.
Qed.

(** C2, amended.  No window width makes the rolling decomposition raise:
    there is no check of the parameters.  With width 0 it returns the empty
    sequence. *)
Theorem window_width_0_returns_empty (panel : list Row) (ticker : string)
    (m c : float) :
  (forall w : Z, exists rows, rolling_decomposition panel ticker w m c = Returns rows) /\
  rolling_decomposition panel ticker 0 m c = Returns [].
Proof.
  split.
  - intros w. unfold rolling_decomposition. now eexists.
  - apply rolling_width_0.
Qed.

(** C2 as stated fails: width 0 on the two-row example returns the empty
    sequence, it raises nothing. *)
Lemma window_width_0_does_not_raise :
  rolling_decomposition example_panel "NVDA" 0 (Fin 0.05) (Fin 200) = Returns [] /\
  ~ exists e : exn,
      rolling_decomposition example_panel "NVDA" 0 (Fin 0.05) (Fin 200) = Raises e.
Proof.
  split; [apply rolling_width_0 |].
  intros [e He]. rewrite rolling_width_0 in He. discriminate.
Qed.

(** C4.  Every rolling row belongs to a window of the loop, whose endpoint
    decomposition it carries, and it is flagged stable exactly when the log
    price change of that window is a finite number whose absolute value is
    at least the threshold; at equality with the threshold the row is
    stable. *)
Theorem stable_for_shares_iff (panel : list Row) (ticker : string) (w : Z)
    (m : R) (c : float) (rows : list RollingRow) (rec : RollingRow) :
  rolling_decomposition panel ticker w (Fin m) c = Returns rows ->
  In rec rows ->
  exists (i : Z) (d : Decomposition),
    In i (range w (Z.of_nat (List.length (sorted_valid panel)))) /\
    decompose_endpoints (window (sorted_valid panel) w i) = Returns d /\
    row_start rec = start d /\ row_end rec = end_ d /\
    row_log_price rec = log_price d /\
    (stable_for_shares rec = true <->
     exists x : R, log_price d = Fin x /\ m <= Rabs x) /\
    (forall x : R, log_price d = Fin x -> Rabs x = m ->
                   stable_for_shares rec = true).
Proof.
  intros Hrows Hin.
  apply (rolling_rows_In panel ticker w (Fin m) c rows rec Hrows) in Hin.
  destruct Hin as (i & d & Hi & Hd & ->).
  exists i, d. split; [exact Hi |]. split; [exact Hd |].
  unfold window_row.
  cbn [stable_for_shares row_log_price row_start row_end].
  split; [reflexivity |]. split; [reflexivity |]. split; [reflexivity |].
  destruct (log_price d) as [v | | |]; cbn [isfinite fabs fge fle andb].
  - split.
    + rewrite Rleb_iff. split.
      * intros H. now exists v.
      * intros (x & Hx & Hm). injection Hx as ->. assumption.
    + intros x Hx Hm. injection Hx as ->. apply Rleb_true. lra.
  - both_absurd.
  - both_absurd.
  - both_absurd.
Qed.

(** [np.clip] between [-cap] and [cap] is the clamping of the
    specification, as soon as the cap is not negative. *)
Lemma np_clip_clamp (cap : R) (s : float) :
  0 <= cap -> np_clip s (fneg (Fin cap)) (Fin cap) = clamp_spec cap s.
Proof.
  intros Hcap. destruct s as [v | | |]; unfold np_clip, clamp_spec, Rsign;
    cbn [fneg np_maximum np_minimum flt].
  - unfold Rabs. destruct (Rcase_abs v);
      repeat (split_real_tests; cbn [np_minimum flt]);
      f_equal; lra.
  - f_equal. lra.
  - unfold Rltb. destruct (Rlt_dec (- cap) cap); f_equal; lra.
  - reflexivity.
Qed.

(** Every window of a series of valid observations decomposes into the
    closed form of [decompose_endpoints_valid]. *)
Lemma window_closed_form (panel : list Row) (w i : Z) (d : Decomposition) :
  (forall r, In r (dropna panel) -> valid_obs r) ->
  decompose_endpoints (window (sorted_valid panel) w i) = Returns d ->
  exists p0 m0 p1 m1 : R,
    0 < p0 /\ 0 < m0 /\ 0 < p1 /\ 0 < m1 /\
    log_price d = Fin (ln (p1 / p0)) /\
    log_eps d = Fin (ln ((p1 / m1) / (p0 / m0))) /\
    log_multiple d = Fin (ln (m1 / m0)) /\
    share_eps_pct d = share_of (ln ((p1 / m1) / (p0 / m0))) (ln (p1 / p0)) /\
    share_multiple_pct d = share_of (ln (m1 / m0)) (ln (p1 / p0)).
Proof.
  intros Hvalid Hd.
  destruct (decompose_endpoints_ends _ _ Hd) as (s & e & Hends).
  pose proof (decompose_endpoints_two_rows _ _ Hd) as Hlen.
  assert (Hsub : forall r, In r (dropna (window (sorted_valid panel) w i)) ->
                           valid_obs r).
  { intros r Hr. apply Hvalid. apply dropna_In in Hr. unfold window in Hr.
    apply iloc_In in Hr. unfold sorted_valid in Hr.
    now apply sort_values_In in Hr. }
  destruct (endpoints_In _ _ _ Hends) as [Hs He].
  destruct (Hsub s Hs) as (p0 & m0 & Hp0 & Hm0 & Hps & Hms & Hes).
  destruct (Hsub e He) as (p1 & m1 & Hp1 & Hm1 & Hpe & Hme & Hee).
  rewrite (decompose_endpoints_valid _ s e p0 m0 p1 m1) in Hd by assumption.
  injection Hd as <-. exists p0, m0, p1, m1. cbn. repeat split; assumption.
Qed.

(** C5.  On a stable window each of the two emitted shares is the share of
    the endpoint decomposition of that window, clamped on its own to
    [-cap, cap]: beyond the cap it is [sign(s) * cap], otherwise it is the
    share unchanged. *)
Theorem stable_shares_are_clamped (panel : list Row) (ticker : string) (w : Z)
    (m : float) (cap : R) (rows : list RollingRow) (rec : RollingRow) :
  0 <= cap ->
  rolling_decomposition panel ticker w m (Fin cap) = Returns rows ->
  In rec rows ->
  stable_for_shares rec = true ->
  exists (i : Z) (d : Decomposition),
    In i (range w (Z.of_nat (List.length (sorted_valid panel)))) /\
    decompose_endpoints (window (sorted_valid panel) w i) = Returns d /\
    row_start rec = start d /\ row_end rec = end_ d /\
    row_share_eps_pct rec = clamp_spec cap (share_eps_pct d) /\
    row_share_multiple_pct rec = clamp_spec cap (share_multiple_pct d).
Proof.
  intros Hcap Hrows Hin Hstable.
  apply (rolling_rows_In panel ticker w m (Fin cap) rows rec Hrows) in Hin.
  destruct Hin as (i & d & Hi & Hd & ->).
  exists i, d. unfold window_row in *.
  cbn [stable_for_shares row_start row_end row_share_eps_pct
       row_share_multiple_pct] in *.
  rewrite Hstable, !np_clip_clamp by assumption. repeat split; assumption.
Qed.

(** C6.  Every emitted row carries the three logarithms of the endpoint
    decomposition of its window, stable or not (real numbers, when the
    rows of the series are valid observations); a row that is not stable
    carries no share: both are [NaN]. *)
Theorem logs_always_shares_when_stable (panel : list Row) (ticker : string)
    (w : Z) (m c : float) (rows : list RollingRow) (rec : RollingRow) :
  rolling_decomposition panel ticker w m c = Returns rows ->
  In rec rows ->
  (exists (i : Z) (d : Decomposition),
     In i (range w (Z.of_nat (List.length (sorted_valid panel)))) /\
     decompose_endpoints (window (sorted_valid panel) w i) = Returns d /\
     row_log_price rec = log_price d /\
     row_log_eps rec = log_eps d /\
     row_log_multiple rec = log_multiple d) /\
  ((forall r, In r (dropna panel) -> valid_obs r) ->
   exists lp lv lm : R,
     row_log_price rec = Fin lp /\ row_log_eps rec = Fin lv /\
     row_log_multiple rec = Fin lm) /\
  (stable_for_shares rec = false ->
   row_share_eps_pct rec = NaN /\ row_share_multiple_pct rec = NaN).
Proof.
  intros Hrows Hin.
  apply (rolling_rows_In panel ticker w m c rows rec Hrows) in Hin.
  destruct Hin as (i & d & Hi & Hd & ->).
  split; [| split].
  - exists i, d. repeat split; assumption.
  - intros Hvalid.
    destruct (window_closed_form panel w i d Hvalid Hd)
      as (p0 & m0 & p1 & m1 & _ & _ & _ & _ & Hlp & Hlv & Hlm & _).
    cbn [window_row row_log_price row_log_eps row_log_multiple].
    rewrite Hlp, Hlv, Hlm. now eexists _, _, _.
  - unfold window_row. cbn [stable_for_shares row_share_eps_pct
                            row_share_multiple_pct].
    intros ->. split; reflexivity.
Qed.

Lemma share_of_Fin (num lp a : R) :
  share_of num lp = Fin a -> lp <> 0 /\ a = 100 * (num / lp).
Proof.
  unfold share_of. destruct (Rltb 1e-12 (Rabs lp)) eqn:Hgate; [| discriminate].
  intros H. injection H as <-. split; [| reflexivity].
  apply Rltb_iff in Hgate. intro Hz. rewrite Hz, Rabs_R0 in Hgate. lra.
Qed.

(** C10.  On a stable window of a series of valid observations, when the
    two shares of the endpoint decomposition are numbers within
    [-cap, cap], the row emits them unchanged and they add up to 100. *)
Theorem unclamped_shares_sum_to_100 (panel : list Row) (ticker : string)
    (w : Z) (m : float) (cap : R) (i : Z) (d : Decomposition) (a b : R) :
  (forall r, In r (dropna panel) -> valid_obs r) ->
  In i (range w (Z.of_nat (List.length (sorted_valid panel)))) ->
  decompose_endpoints (window (sorted_valid panel) w i) = Returns d ->
  stable_for_shares (window_row ticker m (Fin cap) d) = true ->
  share_eps_pct d = Fin a -> share_multiple_pct d = Fin b ->
  Rabs a <= cap -> Rabs b <= cap ->
  (exists rows,
     rolling_decomposition panel ticker w m (Fin cap) = Returns rows /\
     In (window_row ticker m (Fin cap) d) rows) /\
  row_share_eps_pct (window_row ticker m (Fin cap) d) = Fin a /\
  row_share_multiple_pct (window_row ticker m (Fin cap) d) = Fin b /\
  a + b = 100.
Proof.
  intros Hvalid Hi Hd Hstable Ha Hb Hacap Hbcap.
  assert (Hcap : 0 <= cap) by (pose proof (Rabs_pos a); lra).
  split; [| split; [| split]].
  - eexists. split; [reflexivity |].
    apply (rolling_rows_In panel ticker w m (Fin cap) _ _ eq_refl).
    now exists i, d.
  - unfold window_row in *.
    cbn [stable_for_shares row_share_eps_pct] in *.
    rewrite Hstable, np_clip_clamp, Ha by assumption. unfold clamp_spec.
    destruct (Rlt_dec cap (Rabs a)); [lra | reflexivity].
  - unfold window_row in *.
    cbn [stable_for_shares row_share_multiple_pct] in *.
    rewrite Hstable, np_clip_clamp, Hb by assumption. unfold clamp_spec.
    destruct (Rlt_dec cap (Rabs b)); [lra | reflexivity].
  - destruct (window_closed_form panel w i d Hvalid Hd)
      as (p0 & m0 & p1 & m1 & Hp0 & Hm0 & Hp1 & Hm1 & _ & _ & _ & Hse & Hsm).
    rewrite Hse in Ha. rewrite Hsm in Hb.
    apply share_of_Fin in Ha. apply share_of_Fin in Hb.
    destruct Ha as [Hnz ->]. destruct Hb as [_ ->].
    pose proof (log_identity p0 m0 p1 m1 Hp0 Hm0 Hp1 Hm1) as Hsum.
    set (lp := ln (p1 / p0)) in *.
    set (lv := ln (p1 / m1 / (p0 / m0))) in *.
    set (lm := ln (m1 / m0)) in *.
    replace (100 * (lv / lp) + 100 * (lm / lp)) with (100 * ((lv + lm) / lp))
      by (field; assumption).
    rewrite <- Hsum. field. assumption.
Qed.

(** *** The examples of the specification, run through the loop *)

Lemma ln_bounds (x : R) : 0 < x -> 1 - / x <= ln x <= x - 1.
Proof.
  intros Hx. split.
  - pose proof (exp_ineq1_le (ln (/ x))) as H.
    rewrite exp_ln in H by now apply Rinv_0_lt_compat.
    rewrite ln_Rinv in H by assumption. lra.
  - pose proof (exp_ineq1_le (ln x)) as H. rewrite exp_ln in H by assumption. lra.
Qed.

Lemma example_log_price_bounds : 1 / 3 <= ln (150 / 100) <= 1 / 2.
Proof. pose proof (ln_bounds (150 / 100)). lra. Qed.

Lemma example_log_eps_bounds : 1 / 5 <= ln ((150 / 12) / (100 / 10)) <= 1 / 4.
Proof. pose proof (ln_bounds ((150 / 12) / (100 / 10))). lra. Qed.

Lemma example_log_multiple_bounds : 1 / 6 <= ln (12 / 10) <= 1 / 5.
Proof. pose proof (ln_bounds (12 / 10)). lra. Qed.

(** The two-row example with a window of one month: one row comes out. *)
Lemma example_rolls :
  rolling_decomposition example_panel "NVDA" 1 (Fin 0.05) (Fin 200) =
  Returns [example_row].
Proof.
  unfold rolling_decomposition.
  change (sort_values date (dropna example_panel)) with example_panel.
  change (range 1 (Z.of_nat (List.length example_panel))) with [1%Z].
  cbn [fold_left]. unfold rolling_step.
  change (window example_panel 1 1) with example_panel.
  rewrite example_decomposes. reflexivity.
Qed.

Lemma example_row_stable : stable_for_shares example_row = true.
Proof.
  pose proof example_log_price_bounds as H.
  unfold example_row, window_row, example_decomposition.
  cbn [stable_for_shares log_price isfinite fabs fge fle andb].
  apply Rleb_true. rewrite Rabs_pos_eq; lra.
Qed.

Lemma example_share_eps :
  share_eps_pct example_decomposition =
  Fin (100 * (ln ((150 / 12) / (100 / 10)) / ln (150 / 100))).
Proof.
  pose proof example_log_price_bounds as H.
  unfold example_decomposition, share_of. cbn [share_eps_pct].
  rewrite Rltb_true; [reflexivity |]. rewrite Rabs_pos_eq; lra.
Qed.

Lemma example_share_multiple :
  share_multiple_pct example_decomposition =
  Fin (100 * (ln (12 / 10) / ln (150 / 100))).
Proof.
  pose proof example_log_price_bounds as H.
  unfold example_decomposition, share_of. cbn [share_multiple_pct].
  rewrite Rltb_true; [reflexivity |]. rewrite Rabs_pos_eq; lra.
Qed.

Lemma share_within_cap (x y : R) :
  0 <= x -> x <= 2 * y -> 0 < y -> Rabs (100 * (x / y)) <= 200.
Proof.
  intros Hx Hxy Hy.
  assert (H0 : 0 <= x / y).
  { unfold Rdiv. apply Rmult_le_pos; [assumption |].
    left. now apply Rinv_0_lt_compat. }
  assert (H2 : x / y <= 2).
  { apply (Rmult_le_reg_r y); [assumption |].
    unfold Rdiv. rewrite Rmult_assoc, Rinv_l by lra. lra. }
  rewrite Rabs_pos_eq; lra.
Qed.

Lemma flat_decomposes :
  decompose_endpoints flat_panel = Returns flat_decomposition.
Proof.
  apply (decompose_endpoints_valid flat_panel
           (mkRow 600%Z (Fin 100) (Fin 10) (Fin (100 / 10)))
           (mkRow 601%Z (Fin 100) (Fin 8) (Fin (100 / 8)))
           100 10 100 8);
    try reflexivity; try lra; simpl; lia.
Qed.

Lemma flat_rolls :
  rolling_decomposition flat_panel "NVDA" 1 (Fin 0.05) (Fin 200) =
  Returns [flat_row].
Proof.
  unfold rolling_decomposition.
  change (sort_values date (dropna flat_panel)) with flat_panel.
  change (range 1 (Z.of_nat (List.length flat_panel))) with [1%Z].
  cbn [fold_left]. unfold rolling_step.
  change (window flat_panel 1 1) with flat_panel.
  rewrite flat_decomposes. reflexivity.
Qed.

Lemma flat_row_unstable :
  stable_for_shares flat_row = false /\
  row_log_price flat_row = Fin 0 /\
  row_share_eps_pct flat_row = NaN /\
  row_share_multiple_pct flat_row = NaN.
Proof.
  assert (Hlp : ln (100 / 100) = 0).
  { replace (100 / 100) with 1 by lra. apply ln_1. }
  unfold flat_row, window_row, flat_decomposition.
  cbn [stable_for_shares row_log_price row_share_eps_pct
       row_share_multiple_pct log_price isfinite fabs fge fle andb].
  rewrite Hlp, Rabs_R0, Rleb_false by lra. repeat split.
Qed.

(** A negative width is not refused either, and [iloc] reads a negative
    stop from the end of the frame: width -2 over three rows decomposes
    the slice [0 : -1]. *)
Lemma negative_width_emits_row :
  rolling_decomposition
    (example_panel ++ [mkRow 612%Z (Fin 150) (Fin 12) (Fin (150 / 12))])
    "NVDA" (-2) (Fin 0.05) (Fin 200) =
  Returns [example_row].
Proof.
  unfold rolling_decomposition.
  set (p := example_panel ++ [mkRow 612%Z (Fin 150) (Fin 12) (Fin (150 / 12))]).
  change (sort_values date (dropna p)) with p.
  change (range (-2) (Z.of_nat (List.length p)))
    with [(-2)%Z; (-1)%Z; 0%Z; 1%Z; 2%Z].
  cbn [fold_left]. unfold rolling_step.
  change (window p (-2) (-2)) with example_panel.
  change (window p (-2) (-1)) with (@nil Row).
  change (window p (-2) 0) with (@nil Row).
  change (window p (-2) 1) with (@nil Row).
  change (window p (-2) 2) with (@nil Row).
  rewrite example_decomposes. reflexivity.
Qed.

Lemma stable_for_shares_iff_witness :
  exists (i : Z) (d : Decomposition),
    In i (range 1 (Z.of_nat (List.length (sorted_valid example_panel)))) /\
    decompose_endpoints (window (sorted_valid example_panel) 1 i) = Returns d /\
    row_start example_row = start d /\ row_end example_row = end_ d /\
    row_log_price example_row = log_price d /\
    (stable_for_shares example_row = true <->
     exists x : R, log_price d = Fin x /\ 0.05 <= Rabs x) /\
    (forall x : R, log_price d = Fin x -> Rabs x = 0.05 ->
                   stable_for_shares example_row = true).
Proof.
  apply (stable_for_shares_iff example_panel "NVDA" 1 0.05 (Fin 200)
           [example_row] example_row).
  - exact example_rolls.
  - now left.
Defined.

Lemma stable_shares_are_clamped_witness :
  exists (i : Z) (d : Decomposition),
    In i (range 1 (Z.of_nat (List.length (sorted_valid example_panel)))) /\
    decompose_endpoints (window (sorted_valid example_panel) 1 i) = Returns d /\
    row_start example_row = start d /\ row_end example_row = end_ d /\
    row_share_eps_pct example_row = clamp_spec 200 (share_eps_pct d) /\
    row_share_multiple_pct example_row = clamp_spec 200 (share_multiple_pct d).
Proof.
  apply (stable_shares_are_clamped example_panel "NVDA" 1 (Fin 0.05) 200
           [example_row] example_row).
  - lra.
  - exact example_rolls.
  - now left.
  - exact example_row_stable.
Defined.

Lemma logs_always_shares_when_stable_witness :
  (exists (i : Z) (d : Decomposition),
     In i (range 1 (Z.of_nat (List.length (sorted_valid flat_panel)))) /\
     decompose_endpoints (window (sorted_valid flat_panel) 1 i) = Returns d /\
     row_log_price flat_row = log_price d /\
     row_log_eps flat_row = log_eps d /\
     row_log_multiple flat_row = log_multiple d) /\
  ((forall r, In r (dropna flat_panel) -> valid_obs r) ->
   exists lp lv lm : R,
     row_log_price flat_row = Fin lp /\ row_log_eps flat_row = Fin lv /\
     row_log_multiple flat_row = Fin lm) /\
  (stable_for_shares flat_row = false ->
   row_share_eps_pct flat_row = NaN /\ row_share_multiple_pct flat_row = NaN).
Proof.
  apply (logs_always_shares_when_stable flat_panel "NVDA" 1 (Fin 0.05) (Fin 200)
           [flat_row] flat_row).
  - exact flat_rolls.
  - now left.
Defined.

Lemma unclamped_shares_sum_to_100_witness :
  (exists rows,
     rolling_decomposition example_panel "NVDA" 1 (Fin 0.05) (Fin 200) =
     Returns rows /\ In example_row rows) /\
  row_share_eps_pct example_row =
    Fin (100 * (ln ((150 / 12) / (100 / 10)) / ln (150 / 100))) /\
  row_share_multiple_pct example_row =
    Fin (100 * (ln (12 / 10) / ln (150 / 100))) /\
  100 * (ln ((150 / 12) / (100 / 10)) / ln (150 / 100)) +
  100 * (ln (12 / 10) / ln (150 / 100)) = 100.
Proof.
  pose proof example_log_price_bounds as Hp.
  pose proof example_log_eps_bounds as Hv.
  pose proof example_log_multiple_bounds as Hm.
  apply (unclamped_shares_sum_to_100 example_panel "NVDA" 1 (Fin 0.05) 200 1
           example_decomposition).
  - intros r Hr. apply dropna_In in Hr.
    exact (proj1 (Forall_forall valid_obs example_panel) example_rows_valid r Hr).
  - apply range_In. change (sorted_valid example_panel) with example_panel.
    simpl. lia.
  - exact example_decomposes.
  - exact example_row_stable.
  - exact example_share_eps.
  - exact example_share_multiple.
  - apply share_within_cap; lra.
  - apply share_within_cap; lra.
Defined.

End Rolling.

(* ================================================================= *)
(** ** The monthly loader *)

Section Loader.

Local Open Scope R_scope.

(** *** One row per month, in ascending order *)

Lemma insert_key_In (k y : Z) (l : list Z) :
  In y (insert_key k l) <-> y = k \/ In y l.
Proof.
  induction l as [| z tl IH]; simpl.
  - intuition.
  - destruct (Z.ltb_spec k z); simpl; [intuition |].
    destruct (Z.eqb_spec k z); simpl; [subst; intuition |].
    rewrite IH. intuition.
Qed.

Lemma insert_key_sorted (k : Z) (l : list Z) :
  StronglySorted Z.lt l -> StronglySorted Z.lt (insert_key k l).
Proof.
  induction 1 as [| y tl Hsorted IH Hy]; simpl.
  - repeat constructor.
  - destruct (Z.ltb_spec k y).
    + constructor; [now constructor |]. constructor; [assumption |].
      eapply Forall_impl; [| exact Hy]. intros z Hz. simpl in *. lia.
    + destruct (Z.eqb_spec k y); [now constructor |].
      constructor; [assumption |]. apply Forall_forall. intros z Hz.
      apply insert_key_In in Hz. destruct Hz as [-> | Hz]; [lia |].
      rewrite Forall_forall in Hy. now apply Hy.
Qed.

Lemma group_keys_acc_sorted (l acc : list Z) :
  StronglySorted Z.lt acc ->
  StronglySorted Z.lt (fold_left (fun acc k => insert_key k acc) l acc).
Proof.
  revert acc. induction l as [| k tl IH]; intros acc Hacc; simpl;
    [assumption |].
  apply IH. now apply insert_key_sorted.
Qed.

Lemma group_keys_sorted (l : list Z) : StronglySorted Z.lt (group_keys l).
Proof. apply group_keys_acc_sorted. constructor. Qed.

Lemma load_pe_monthly_dates (raw : list RawRow) :
  map date (load_pe_monthly raw) =
  group_keys (map m_date (sort_values m_date (normalize raw))).
Proof.
  unfold load_pe_monthly, groupby_date_last. rewrite !map_map. cbn [date m_date].
  apply map_id.
Qed.

(** The dates of the loaded panel increase strictly: ascending order, and
    no month twice. *)
Lemma load_pe_monthly_sorted (raw : list RawRow) :
  StronglySorted Z.lt (map date (load_pe_monthly raw)).
Proof. rewrite load_pe_monthly_dates. apply group_keys_sorted. Qed.

(** *** Cells of the loaded panel *)

Lemma last_valid_preserves (P : float -> Prop) (cells : list float) :
  P NaN -> Forall P cells -> P (last_valid cells).
Proof.
  intros HNaN. induction 1 as [| x tl Hx Htl IH]; simpl; [assumption |].
  destruct (notna (last_valid tl)); assumption.
Qed.

Lemma last_valid_cleaned (cells : list float) :
  Forall missing_or_positive cells -> missing_or_positive (last_valid cells).
Proof. apply last_valid_preserves. now left. Qed.

Lemma last_valid_last (cells : list float) (x : float) :
  notna x = true -> last_valid (cells ++ [x]) = x.
Proof.
  intros Hx. induction cells as [| y tl IH]; simpl.
  - reflexivity.
  - now rewrite IH, Hx.
Qed.

Lemma implied_eps_cleaned (x y : float) : missing_or_positive (implied_eps x y).
Proof. apply safe_pos_cleaned. Qed.

Lemma normalize_cleaned (raw : list RawRow) (r : Monthly) :
  In r (normalize raw) ->
  missing_or_positive (m_price r) /\ missing_or_positive (m_pe r).
Proof.
  unfold normalize. rewrite in_flat_map. intros (x & _ & Hr).
  destruct (to_month_start (raw_date x)); simpl in Hr; [| contradiction].
  destruct Hr as [<- | []]. simpl. split; apply safe_pos_cleaned.
Qed.

(** The loader leaves in every column a missing cell or a value above
    zero: its panels are the series [decompose_endpoints] expects. *)
Lemma load_pe_monthly_cleaned (raw : list RawRow) :
  Forall cleaned (load_pe_monthly raw).
Proof.
  unfold load_pe_monthly, groupby_date_last. rewrite map_map.
  apply Forall_forall. intros r Hr. apply in_map_iff in Hr.
  destruct Hr as (k & <- & _). unfold cleaned. cbn [price pe eps m_price m_pe].
  assert (Hgroup : forall g : list Monthly,
             (forall x, In x g -> In x (sort_values m_date (normalize raw))) ->
             missing_or_positive (last_valid (map m_price g)) /\
             missing_or_positive (last_valid (map m_pe g))).
  { intros g Hg. split; apply last_valid_cleaned; apply Forall_forall;
      intros c Hc; apply in_map_iff in Hc; destruct Hc as (x & <- & Hx);
      apply Hg, sort_values_In, normalize_cleaned in Hx; tauto. }
  destruct (Hgroup (filter (fun r0 => (m_date r0 =? k)%Z)
                      (sort_values m_date (normalize raw)))) as [Hp Hm].
  { intros x Hx. now apply filter_In in Hx. }
  repeat split; try assumption. apply implied_eps_cleaned.
Qed.

(** *** Two rows of one month *)

(** C9 on the code.  For January the loader emits price 100 with multiple
    12 and implied value 100 / 12: the price of the first row next to the
    multiple of the second.  The last row of the month alone loads as a
    row without price and without implied value. *)
Theorem month_mixes_cells_of_two_rows :
  load_pe_monthly january_twice =
    [mkRow 600%Z (Fin 100) (Fin 12) (Fin (100 / 12))] /\
  load_pe_monthly [january_last] = [mkRow 600%Z NaN (Fin 12) NaN] /\
  load_pe_monthly january_twice <> load_pe_monthly [january_last].
Proof.
  assert (H100 : safe_pos (Fin 100) = Fin 100)
    by (apply safe_pos_positive; simpl; lra).
  assert (H10 : safe_pos (Fin 10) = Fin 10)
    by (apply safe_pos_positive; simpl; lra).
  assert (H12 : safe_pos (Fin 12) = Fin 12)
    by (apply safe_pos_positive; simpl; lra).
  assert (Htwice : load_pe_monthly january_twice =
                   [mkRow 600%Z (Fin 100) (Fin 12) (Fin (100 / 12))]).
  { unfold load_pe_monthly, january_twice, normalize.
    cbn [flat_map to_month_start option_map raw_date raw_price raw_pe
         year month app].
    rewrite H100, H10, H12.
    change (safe_pos NaN) with NaN.
    change ((2020 - 1970) * 12 + (1 - 1))%Z with 600%Z.
    cbn. rewrite implied_eps_quotient by lra. reflexivity. }
  assert (Hlast : load_pe_monthly [january_last] = [mkRow 600%Z NaN (Fin 12) NaN]).
  { unfold january_last. rewrite load_pe_monthly_one_row.
    unfold implied_value. rewrite H12. reflexivity. }
  repeat split; try assumption.
  rewrite Htwice, Hlast. discriminate.
Qed.

(** *** Where the loader does keep the last row *)

(** [sort_values] keeps the rows of one key in input order
    ([sort_values_filter] below). *)
Lemma filter_above (B : Type) (key : B -> Z) (k : Z) (l : list B) :
  Forall (fun y => (k < key y)%Z) l ->
  filter (fun r => (key r =? k)%Z) l = [].
Proof.
  induction 1 as [| y tl Hy Htl IH]; simpl; [reflexivity |].
  destruct (Z.eqb_spec (key y) k); [lia | assumption].
Qed.

Lemma insert_by_sorted (B : Type) (key : B -> Z) (x : B) (l : list B) :
  StronglySorted (by_key key) l -> StronglySorted (by_key key) (insert_by key x l).
Proof.
  induction 1 as [| y tl Hsorted IH Hy]; simpl.
  - repeat constructor.
  - destruct (Z.ltb_spec (key x) (key y)).
    + constructor; [now constructor |]. constructor; [unfold by_key; lia |].
      eapply Forall_impl; [| exact Hy]. unfold by_key. intros z Hz. lia.
    + constructor; [assumption |]. apply Forall_forall. intros z Hz.
      apply insert_by_In in Hz. destruct Hz as [-> | Hz]; [exact H |].
      rewrite Forall_forall in Hy. now apply Hy.
Qed.

Lemma insert_by_filter (B : Type) (key : B -> Z) (k : Z) (x : B) (l : list B) :
  StronglySorted (by_key key) l ->
  filter (fun r => (key r =? k)%Z) (insert_by key x l) =
  filter (fun r => (key r =? k)%Z) l ++ (if (key x =? k)%Z then [x] else []).
Proof.
  induction 1 as [| y tl Hsorted IH Hy]; simpl.
  - destruct (key x =? k)%Z; reflexivity.
  - destruct (Z.ltb_spec (key x) (key y)).
    + cbn [filter]. destruct (Z.eqb_spec (key x) k) as [Hk |].
      * assert (Habove : filter (fun r => (key r =? k)%Z) (y :: tl) = []).
        { apply filter_above. constructor; [lia |].
          eapply Forall_impl; [| exact Hy]. unfold by_key. intros z Hz. lia. }
        cbn [filter] in Habove. now rewrite Habove.
      * now rewrite app_nil_r.
    + cbn [filter]. rewrite IH.
      destruct (key y =? k)%Z; [reflexivity | reflexivity].
Qed.

Lemma sort_values_acc_filter (B : Type) (key : B -> Z) (k : Z) (l acc : list B) :
  StronglySorted (by_key key) acc ->
  filter (fun r => (key r =? k)%Z)
    (fold_left (fun acc x => insert_by key x acc) l acc) =
  filter (fun r => (key r =? k)%Z) acc ++ filter (fun r => (key r =? k)%Z) l.
Proof.
  revert acc. induction l as [| x tl IH]; intros acc Hacc; simpl.
  - now rewrite app_nil_r.
  - rewrite IH by now apply insert_by_sorted.
    rewrite insert_by_filter by assumption. rewrite <- app_assoc.
    destruct (key x =? k)%Z; reflexivity.
Qed.

Lemma sort_values_filter (B : Type) (key : B -> Z) (k : Z) (l : list B) :
  filter (fun r => (key r =? k)%Z) (sort_values key l) =
  filter (fun r => (key r =? k)%Z) l.
Proof.
  unfold sort_values. rewrite sort_values_acc_filter by constructor. reflexivity.
Qed.

(** The row the loader emits for month [k]: column by column the last
    cell of the month that is not missing. *)
Lemma load_pe_monthly_row (raw : list RawRow) (r : Row) :
  In r (load_pe_monthly raw) ->
  price r = last_valid (map m_price (month_rows (date r) raw)) /\
  pe r = last_valid (map m_pe (month_rows (date r) raw)) /\
  eps r = implied_eps (price r) (pe r).
Proof.
  unfold load_pe_monthly, groupby_date_last. rewrite map_map.
  intros Hr. apply in_map_iff in Hr. destruct Hr as (k & <- & _).
  cbn [date price pe eps m_date m_price m_pe]. unfold month_rows.
  rewrite !sort_values_filter. repeat split.
Qed.

(** When the last row of a month has both cells, the loader emits that
    row for the month. *)
Lemma load_pe_monthly_last_complete (raw : list RawRow) (r : Row)
    (earlier : list Monthly) (x : Monthly) :
  In r (load_pe_monthly raw) ->
  month_rows (date r) raw = earlier ++ [x] ->
  notna (m_price x) = true -> notna (m_pe x) = true ->
  price r = m_price x /\ pe r = m_pe x.
Proof.
  intros Hr Hrows Hprice Hpe.
  destruct (load_pe_monthly_row raw r Hr) as (Hp & Hm & _).
  rewrite Hrows, map_app in Hp, Hm. cbn [map] in Hp, Hm.
  rewrite last_valid_last in Hp, Hm by assumption. now split.
Qed.

(** *** Loaded rows are valid observations *)

Lemma safe_pos_real (x : float) : x <> PInf -> missing_or_real (safe_pos x).
Proof.
  intros Hx. destruct x as [v | | |]; try (now left).
  unfold safe_pos, fgt. cbn [flt]. destruct (Rltb 0 v) eqn:Hv; [| now left].
  right. exists v. split; [reflexivity | now apply Rltb_iff].
Qed.

(** On a file without infinite cells, every row of the loaded panel that
    survives [dropna] is a valid observation. *)
Lemma load_pe_monthly_valid (raw : list RawRow) :
  (forall x, In x raw -> raw_price x <> PInf /\ raw_pe x <> PInf) ->
  forall r, In r (dropna (load_pe_monthly raw)) -> valid_obs r.
Proof.
  intros Hraw r Hr. unfold dropna in Hr. apply filter_In in Hr.
  destruct Hr as [Hr Hdefined].
  destruct (load_pe_monthly_row raw r Hr) as (Hp & Hm & He).
  assert (Hcells : forall x, In x (month_rows (date r) raw) ->
                             missing_or_real (m_price x) /\ missing_or_real (m_pe x)).
  { intros x Hx. unfold month_rows in Hx. apply filter_In in Hx.
    destruct Hx as [Hx _]. unfold normalize in Hx. apply in_flat_map in Hx.
    destruct Hx as (y & Hy & Hx).
    destruct (to_month_start (raw_date y)); simpl in Hx; [| contradiction].
    destruct Hx as [<- | []]. simpl. destruct (Hraw y Hy).
    split; now apply safe_pos_real. }
  assert (Hprice : missing_or_real (price r)).
  { rewrite Hp. apply last_valid_preserves; [now left |].
    apply Forall_forall. intros c Hc. apply in_map_iff in Hc.
    destruct Hc as (x & <- & Hx). now apply Hcells. }
  assert (Hpe : missing_or_real (pe r)).
  { rewrite Hm. apply last_valid_preserves; [now left |].
    apply Forall_forall. intros c Hc. apply in_map_iff in Hc.
    destruct Hc as (x & <- & Hx). now apply Hcells. }
  apply andb_true_iff in Hdefined. destruct Hdefined as [Hdefined _].
  apply andb_true_iff in Hdefined. destruct Hdefined as [Hnp Hnm].
  destruct Hprice as [Hprice | (p & Hprice & Hppos)];
    [rewrite Hprice in Hnp; discriminate |].
  destruct Hpe as [Hpe | (m & Hpe & Hmpos)];
    [rewrite Hpe in Hnm; discriminate |].
  exists p, m. repeat split; try assumption.
  rewrite He, Hprice, Hpe. now apply implied_eps_quotient.
Qed.

End Loader.


(* ================================================================= *)
(** ** Picking a column *)

Section PickCol.

Lemma dict_get_set (k k' v : string) (d : dict) :
  dict_get k (dict_set k' v d) =
  if String.eqb k k' then Some v else dict_get k d.
Proof.
  induction d as [| [k0 v0] tl IH]; simpl.
  - reflexivity.
  - destruct (String.eqb_spec k' k0) as [-> | Hk0]; simpl.
    + destruct (String.eqb k k0); reflexivity.
    + rewrite IH. destruct (String.eqb_spec k k0) as [-> | Hk]; [| reflexivity].
      destruct (String.eqb_spec k0 k'); [congruence | reflexivity].
Qed.

(** The index sends a lowered name to the last column that lowers to it. *)
Lemma lower_index_snoc (columns : list string) (c k : string) :
  dict_get k (lower_index (columns ++ [c])) =
  if String.eqb k (lower c) then Some c else dict_get k (lower_index columns).
Proof.
  unfold lower_index. rewrite fold_left_app. simpl. apply dict_get_set.
Qed.

Lemma lower_index_none (columns : list string) (k : string) :
  dict_get k (lower_index columns) = None <->
  forall c, In c columns -> lower c <> k.
Proof.
  induction columns as [| c tl IH] using rev_ind.
  - simpl. split; [intros _ c [] | reflexivity].
  - rewrite lower_index_snoc. destruct (String.eqb_spec k (lower c)) as [-> | Hk].
    + split; [discriminate |]. intros H. exfalso. apply (H c); [| reflexivity].
      apply in_or_app. right. now left.
    + rewrite IH. split.
      * intros H x Hx. apply in_app_or in Hx. destruct Hx as [Hx | [<- | []]];
          [now apply H | congruence].
      * intros H x Hx. apply H. apply in_or_app. now left.
Qed.

Lemma lower_index_some (columns : list string) (k c : string) :
  dict_get k (lower_index columns) = Some c ->
  exists before after,
    columns = before ++ c :: after /\ lower c = k /\
    forall c', In c' after -> lower c' <> k.
Proof.
  induction columns as [| x tl IH] using rev_ind.
  - discriminate.
  - rewrite lower_index_snoc. destruct (String.eqb_spec k (lower x)) as [-> | Hk].
    + intros H. injection H as ->. exists tl, []. repeat split. intros c' [].
    + intros H. destruct (IH H) as (before & after & -> & Hc & Hafter).
      exists before, (after ++ [x]). rewrite <- app_assoc. repeat split;
        [assumption |].
      intros c' Hc'. apply in_app_or in Hc'. destruct Hc' as [Hc' | [<- | []]];
        [now apply Hafter | congruence].
Qed.

Lemma pick_col_none (columns candidates : list string) :
  pick_col columns candidates = None <->
  forall cand c, In cand candidates -> In c columns -> ~ answers c cand.
Proof.
  unfold pick_col, answers. induction candidates as [| cand tl IH]; simpl.
  - split; [intros _ cand c [] | reflexivity].
  - destruct (dict_get (lower cand) (lower_index columns)) as [c |] eqn:Hget.
    + split; [discriminate |]. intros H. exfalso.
      destruct (lower_index_some columns _ _ Hget) as (before & after & -> & Hc & _).
      apply (H cand c); [now left | | assumption].
      apply in_or_app. right. now left.
    + rewrite IH. rewrite lower_index_none in Hget. split.
      * intros H x c [<- | Hx] Hc; [now apply Hget | now apply H].
      * intros H x c Hx Hc. apply H; [now right | assumption].
Qed.

Lemma pick_col_some (columns candidates : list string) (c : string) :
  pick_col columns candidates = Some c ->
  In c columns /\
  exists earlier cand later,
    candidates = earlier ++ cand :: later /\
    answers c cand /\
    forall cand' c', In cand' earlier -> In c' columns -> ~ answers c' cand'.
Proof.
  unfold pick_col, answers. induction candidates as [| cand tl IH]; simpl;
    [discriminate |].
  destruct (dict_get (lower cand) (lower_index columns)) as [c0 |] eqn:Hget.
  - intros H. injection H as ->.
    destruct (lower_index_some columns _ _ Hget) as (before & after & -> & Hc & _).
    split; [apply in_or_app; right; now left |].
    exists [], cand, tl. repeat split; [assumption |]. intros cand' c' [].
  - intros H. destruct (IH H) as (Hin & earlier & cand0 & later & -> & Hc & Hfirst).
    split; [assumption |]. exists (cand :: earlier), cand0, later.
    repeat split; [assumption |]. rewrite lower_index_none in Hget.
    intros cand' c' [<- | Hcand'] Hc'; [now apply Hget | now apply Hfirst].
Qed.

(** X1.  [pick_col] finds nothing exactly when no column of the frame
    agrees, up to case, with any of the candidates. *)
Theorem pick_col_none_iff (columns candidates : list string) :
  pick_col columns candidates = None <->
  forall cand c, In cand candidates -> In c columns -> ~ answers c cand.
Proof. exact (pick_col_none columns candidates). Qed.

(** X2.  The column [pick_col] returns is a column of the frame that
    answers the first candidate, in the order of the candidates, that any
    column answers: the order of the candidates decides, not the order of
    the columns. *)
Theorem pick_col_first_candidate (columns candidates : list string) (c : string) :
  pick_col columns candidates = Some c ->
  In c columns /\
  exists earlier cand later,
    candidates = earlier ++ cand :: later /\
    answers c cand /\
    forall cand' c', In cand' earlier -> In c' columns -> ~ answers c' cand'.
Proof. exact (pick_col_some columns candidates c). Qed.

(** X3.  Among the columns that differ only by case, the one that comes
    last in the frame is returned. *)
Theorem pick_col_last_column (columns candidates : list string) (c : string) :
  pick_col columns candidates = Some c ->
  exists before after,
    columns = before ++ c :: after /\
    forall c', In c' after -> lower c' <> lower c.
Proof.
  unfold pick_col. induction candidates as [| cand tl IH]; simpl;
    [discriminate |].
  destruct (dict_get (lower cand) (lower_index columns)) as [c0 |] eqn:Hget.
  - intros H. injection H as ->.
    destruct (lower_index_some columns _ _ Hget) as (before & after & -> & Hc & Hafter).
    exists before, after. split; [reflexivity |]. now rewrite Hc.
  - exact IH.
Qed.

End PickCol.

Lemma pick_col_first_candidate_witness :
  In "Adj Close"%string ["Close"; "Adj Close"; "PE"]%string /\
  exists earlier cand later,
    ["adj close"; "adj_close"; "adjclose"; "price"; "close"]%string =
      earlier ++ cand :: later /\
    answers "Adj Close" cand /\
    forall cand' c',
      In cand' earlier -> In c' ["Close"; "Adj Close"; "PE"]%string ->
      ~ answers c' cand'.
Proof.
  apply (pick_col_first_candidate
           ["Close"; "Adj Close"; "PE"]%string
           ["adj close"; "adj_close"; "adjclose"; "price"; "close"]%string
           "Adj Close").
  reflexivity.
Defined.

Lemma pick_col_last_column_witness :
  exists before after,
    ["date"; "Price"; "DATE"; "PE"]%string = before ++ "DATE"%string :: after /\
    forall c', In c' after -> lower c' <> lower "DATE".
Proof.
  apply (pick_col_last_column
           ["date"; "Price"; "DATE"; "PE"]%string
           ["date"; "month"; "timestamp"; "time"]%string
           "DATE").
  reflexivity.
Defined.

(* ================================================================= *)
(** ** More on the endpoint decomposition *)

Section EndpointFacts.

Local Open Scope R_scope.

Lemma py_div_cases (x y : float) :
  (y = Fin 0 /\ py_div x y = Raises ZeroDivisionError) \/
  (y <> Fin 0 /\ py_div x y = Returns (ieee_div x y)).
Proof.
  destruct y as [b | | |]; try (right; split; [discriminate | reflexivity]).
  unfold py_div. destruct (Req_dec_T b 0) as [-> | Hb].
  - left. split; [reflexivity |]. now rewrite Reqb_true.
  - right. split; [congruence |]. now rewrite Reqb_false.
Qed.

Lemma dropna_keeps (r : Row) (panel : list Row) :
  In r (dropna panel) -> dropna [r] = [r].
Proof.
  unfold dropna. intros H. apply filter_In in H. destruct H as [_ H].
  simpl. now rewrite H.
Qed.

Lemma dropna_pair (s e : Row) (panel : list Row) :
  In s (dropna panel) -> In e (dropna panel) -> dropna [s; e] = [s; e].
Proof.
  unfold dropna. intros Hs He. apply filter_In in Hs, He.
  destruct Hs as [_ Hs]. destruct He as [_ He]. simpl. now rewrite Hs, He.
Qed.

Lemma decompose_endpoints_dates (panel : list Row) (s r : Row) (rest : list Row)
    (d : Decomposition) :
  dropna panel = s :: r :: rest ->
  decompose_endpoints panel = Returns d ->
  start d = date s /\ end_ d = date (last (r :: rest) s).
Proof.
  intros Hp Hd. unfold decompose_endpoints in Hd. rewrite Hp in Hd.
  cbv beta iota zeta in Hd.
  destruct (py_div (price (last (r :: rest) s)) (price s)); [| discriminate].
  destruct (py_div (eps (last (r :: rest) s)) (eps s)); [| discriminate].
  destruct (py_div (pe (last (r :: rest) s)) (pe s)); [| discriminate].
  cbn [bind] in Hd.
  match type of Hd with bind ?m _ = _ => destruct m; [| discriminate] end.
  cbn [bind] in Hd.
  match type of Hd with bind ?m _ = _ => destruct m; [| discriminate] end.
  cbn [bind] in Hd. injection Hd as <-. split; reflexivity.
Qed.

Lemma decompose_endpoints_pair (panel : list Row) (d : Decomposition) :
  decompose_endpoints panel = Returns d ->
  exists s e : Row,
    endpoints (dropna panel) = Some (s, e) /\
    start d = date s /\ end_ d = date e /\
    decompose_endpoints [s; e] = Returns d.
Proof.
  intros Hd. pose proof Hd as Hbody. unfold decompose_endpoints in Hbody.
  destruct (dropna panel) as [| s [| r rest]] eqn:Hp; try discriminate.
  destruct (decompose_endpoints_dates panel s r rest d Hp Hd) as [Hstart Hend].
  set (e := last (r :: rest) s) in *.
  assert (Hs : In s (dropna panel)) by (rewrite Hp; now left).
  assert (He : In e (dropna panel)).
  { rewrite Hp. right. apply last_In. discriminate. }
  exists s, e. repeat split; try assumption.
  unfold decompose_endpoints. rewrite (dropna_pair s e panel Hs He).
  cbn [last]. exact Hbody.
Qed.

(** X4.  A decomposition that returns depends on the first and the last
    valid row only: its dates are theirs, and it is the decomposition of
    the series made of these two rows alone.  Rows with a missing cell and
    the rows in between do not count. *)
Theorem decompose_endpoints_only_endpoints (panel : list Row) (d : Decomposition) :
  decompose_endpoints panel = Returns d ->
  exists s e : Row,
    endpoints (dropna panel) = Some (s, e) /\
    start d = date s /\ end_ d = date e /\
    decompose_endpoints [s; e] = Returns d.
Proof. exact (decompose_endpoints_pair panel d). Qed.

Lemma decompose_endpoints_only_endpoints_witness :
  exists s e : Row,
    endpoints (dropna (example_jan :: mkRow 605%Z NaN (Fin 11) NaN :: [example_dec])) =
      Some (s, e) /\
    start example_decomposition = date s /\
    end_ example_decomposition = date e /\
    decompose_endpoints [s; e] = Returns example_decomposition.
Proof.
  apply (decompose_endpoints_only_endpoints
           (example_jan :: mkRow 605%Z NaN (Fin 11) NaN :: [example_dec])
           example_decomposition).
  apply (decompose_endpoints_valid _ example_jan example_dec 100 10 150 12);
    try reflexivity; try lra; simpl; lia.
Defined.

(** X5.  What [decompose_endpoints] does on any frame.  With fewer than
    two rows left by [dropna] it raises its [ValueError]; with two or more
    it divides by the cells of the first of them, so a zero in its price,
    implied value or multiple raises [ZeroDivisionError]; in every other
    case it returns. *)
Theorem decompose_endpoints_outcome (panel : list Row) :
  ((List.length (dropna panel) < 2)%nat /\
   decompose_endpoints panel = Raises (ValueError not_enough_rows)) \/
  (exists s e : Row,
     (2 <= List.length (dropna panel))%nat /\
     endpoints (dropna panel) = Some (s, e) /\
     ((price s = Fin 0 \/ eps s = Fin 0 \/ pe s = Fin 0) /\
      decompose_endpoints panel = Raises ZeroDivisionError
      \/
      (price s <> Fin 0 /\ eps s <> Fin 0 /\ pe s <> Fin 0) /\
      exists d, decompose_endpoints panel = Returns d)).
Proof.
  destruct (dropna panel) as [| s [| r rest]] eqn:Hp.
  - left. split; [simpl; lia |]. apply decompose_endpoints_short. rewrite Hp. simpl. lia.
  - left. split; [simpl; lia |]. apply decompose_endpoints_short. rewrite Hp. simpl. lia.
  - right. exists s, (last (r :: rest) s). split; [simpl; lia |].
    split; [reflexivity |].
    unfold decompose_endpoints. rewrite Hp. cbv beta iota zeta.
    set (e := last (r :: rest) s).
    destruct (py_div_cases (price e) (price s)) as [[Hz ->] | [Hnz ->]];
      [left; split; [now left | reflexivity] |].
    cbn [bind].
    destruct (py_div_cases (eps e) (eps s)) as [[Hz' ->] | [Hnz' ->]];
      [left; split; [right; now left | reflexivity] |].
    cbn [bind].
    destruct (py_div_cases (pe e) (pe s)) as [[Hz'' ->] | [Hnz'' ->]];
      [left; split; [right; now right | reflexivity] |].
    cbn [bind]. right. split; [repeat split; assumption |].
    destruct (share_division_returns
                (np_log (ieee_div (eps e) (eps s)))
                (np_log (ieee_div (price e) (price s)))) as [se Hse].
    destruct (share_division_returns
                (np_log (ieee_div (pe e) (pe s)))
                (np_log (ieee_div (price e) (price s)))) as [sm Hsm].
    rewrite Hse, Hsm. cbn [bind]. now eexists.
Qed.

(** The decomposition between two rows that are valid observations. *)
Lemma decompose_pair_valid (s e : Row) (p0 m0 p1 m1 : R) :
  0 < p0 -> 0 < m0 -> 0 < p1 -> 0 < m1 ->
  price s = Fin p0 -> pe s = Fin m0 -> eps s = Fin (p0 / m0) ->
  price e = Fin p1 -> pe e = Fin m1 -> eps e = Fin (p1 / m1) ->
  decompose_endpoints [s; e] =
  Returns {|
    start := date s;
    end_ := date e;
    log_price := Fin (ln (p1 / p0));
    log_eps := Fin (ln ((p1 / m1) / (p0 / m0)));
    log_multiple := Fin (ln (m1 / m0));
    share_eps_pct := share_of (ln ((p1 / m1) / (p0 / m0))) (ln (p1 / p0));
    share_multiple_pct := share_of (ln (m1 / m0)) (ln (p1 / p0))
  |}.
Proof.
  intros Hp0 Hm0 Hp1 Hm1 Hps Hms Hes Hpe Hme Hee.
  assert (Hdrop : dropna [s; e] = [s; e]).
  { unfold dropna. simpl. now rewrite Hps, Hms, Hes, Hpe, Hme, Hee. }
  apply decompose_endpoints_valid; try assumption.
  - now rewrite Hdrop.
  - rewrite Hdrop. simpl. lia.
Qed.

(** X6.  In exact real arithmetic (finite doubles read as the reals they
    denote: no rounding, underflow or overflow) decompositions chain.  For
    three valid observations a, b, c each of the three logarithms from a to
    c is the sum of the one from a to b and the one from b to c. *)
Theorem decompositions_chain (a b c : Row) :
  valid_obs a -> valid_obs b -> valid_obs c ->
  exists d_ab d_bc d_ac : Decomposition,
    decompose_endpoints [a; b] = Returns d_ab /\
    decompose_endpoints [b; c] = Returns d_bc /\
    decompose_endpoints [a; c] = Returns d_ac /\
    exists x1 x2 v1 v2 m1 m2 : R,
      log_price d_ab = Fin x1 /\ log_price d_bc = Fin x2 /\
      log_price d_ac = Fin (x1 + x2) /\
      log_eps d_ab = Fin v1 /\ log_eps d_bc = Fin v2 /\
      log_eps d_ac = Fin (v1 + v2) /\
      log_multiple d_ab = Fin m1 /\ log_multiple d_bc = Fin m2 /\
      log_multiple d_ac = Fin (m1 + m2).
Proof.
  intros (pa & ma & Hpa & Hma & Hap & Ham & Hae)
         (pb & mb & Hpb & Hmb & Hbp & Hbm & Hbe)
         (pc & mc & Hpc & Hmc & Hcp & Hcm & Hce).
  assert (Hqa : 0 < pa / ma) by now apply Rdiv_lt_0_compat.
  assert (Hqb : 0 < pb / mb) by now apply Rdiv_lt_0_compat.
  assert (Hqc : 0 < pc / mc) by now apply Rdiv_lt_0_compat.
  assert (Hchain : forall x y z : R, 0 < x -> 0 < y -> 0 < z ->
                     ln (z / x) = ln (y / x) + ln (z / y)).
  { intros x y z Hx Hy Hz. rewrite <- ln_mult by now apply Rdiv_lt_0_compat.
    f_equal. field. lra. }
  eexists _, _, _.
  split; [apply (decompose_pair_valid a b pa ma pb mb); assumption |].
  split; [apply (decompose_pair_valid b c pb mb pc mc); assumption |].
  split; [apply (decompose_pair_valid a c pa ma pc mc); assumption |].
  cbn [log_price log_eps log_multiple].
  eexists _, _, _, _, _, _.
  repeat split; f_equal; now apply Hchain.
Qed.

Lemma decompositions_chain_witness :
  exists d_ab d_bc d_ac : Decomposition,
    decompose_endpoints [example_jan; mkRow 605%Z (Fin 120) (Fin 8) (Fin (120 / 8))] =
      Returns d_ab /\
    decompose_endpoints [mkRow 605%Z (Fin 120) (Fin 8) (Fin (120 / 8)); example_dec] =
      Returns d_bc /\
    decompose_endpoints [example_jan; example_dec] = Returns d_ac /\
    exists x1 x2 v1 v2 m1 m2 : R,
      log_price d_ab = Fin x1 /\ log_price d_bc = Fin x2 /\
      log_price d_ac = Fin (x1 + x2) /\
      log_eps d_ab = Fin v1 /\ log_eps d_bc = Fin v2 /\
      log_eps d_ac = Fin (v1 + v2) /\
      log_multiple d_ab = Fin m1 /\ log_multiple d_bc = Fin m2 /\
      log_multiple d_ac = Fin (m1 + m2).
Proof.
  apply (decompositions_chain example_jan
           (mkRow 605%Z (Fin 120) (Fin 8) (Fin (120 / 8))) example_dec).
  - exists 100, 10. simpl. repeat split; lra.
  - exists 120, 8. simpl. repeat split; lra.
  - exists 150, 12. simpl. repeat split; lra.
Defined.

(** X7.  In exact real arithmetic (finite doubles read as the reals they
    denote: no rounding, underflow or overflow) the two shares of an
    endpoint decomposition between valid observations go together: when
    the log price change is within 1e-12 of zero both are undefined,
    otherwise both are numbers and they add up to 100. *)
Theorem endpoint_shares_together (panel : list Row) (s e : Row) (d : Decomposition) :
  endpoints (dropna panel) = Some (s, e) ->
  valid_obs s -> valid_obs e ->
  decompose_endpoints panel = Returns d ->
  exists lp : R,
    log_price d = Fin lp /\
    (Rabs lp <= 1e-12 /\ share_eps_pct d = NaN /\ share_multiple_pct d = NaN
     \/
     1e-12 < Rabs lp /\
     exists a b : R,
       share_eps_pct d = Fin a /\ share_multiple_pct d = Fin b /\ a + b = 100).
Proof.
  intros Hends (p0 & m0 & Hp0 & Hm0 & Hps & Hms & Hes)
    (p1 & m1 & Hp1 & Hm1 & Hpe & Hme & Hee) Hd.
  pose proof (decompose_endpoints_two_rows panel d Hd) as Hlen.
  rewrite (decompose_endpoints_valid panel s e p0 m0 p1 m1) in Hd by assumption.
  injection Hd as <-. cbn [log_price share_eps_pct share_multiple_pct].
  exists (ln (p1 / p0)). split; [reflexivity |]. unfold share_of.
  pose proof (log_identity p0 m0 p1 m1 Hp0 Hm0 Hp1 Hm1) as Hsum.
  set (lp := ln (p1 / p0)) in *.
  set (lv := ln (p1 / m1 / (p0 / m0))) in *.
  set (lm := ln (m1 / m0)) in *.
  destruct (Rltb 1e-12 (Rabs lp)) eqn:Hgate.
  - right. apply Rltb_iff in Hgate. split; [assumption |].
    eexists _, _. repeat split.
    assert (Hnz : lp <> 0).
    { intro Hz. rewrite Hz, Rabs_R0 in Hgate. lra. }
    replace (100 * (lv / lp) + 100 * (lm / lp)) with (100 * ((lv + lm) / lp))
      by (field; assumption).
    rewrite <- Hsum. field. assumption.
  - left. repeat split. unfold Rltb in Hgate.
    destruct (Rlt_dec 1e-12 (Rabs lp)); [discriminate | lra].
Qed.

Lemma endpoint_shares_together_witness :
  exists lp : R,
    log_price flat_decomposition = Fin lp /\
    (Rabs lp <= 1e-12 /\ share_eps_pct flat_decomposition = NaN /\
     share_multiple_pct flat_decomposition = NaN
     \/
     1e-12 < Rabs lp /\
     exists a b : R,
       share_eps_pct flat_decomposition = Fin a /\
       share_multiple_pct flat_decomposition = Fin b /\ a + b = 100).
Proof.
  apply (endpoint_shares_together flat_panel
           (mkRow 600%Z (Fin 100) (Fin 10) (Fin (100 / 10)))
           (mkRow 601%Z (Fin 100) (Fin 8) (Fin (100 / 8)))
           flat_decomposition).
  - reflexivity.
  - exists 100, 10. simpl. repeat split; lra.
  - exists 100, 8. simpl. repeat split; lra.
  - exact flat_decomposes.
Defined.

End EndpointFacts.


(* ================================================================= *)
(** ** More on the rolling decomposition *)

Section RollingFacts.

Local Open Scope R_scope.

Lemma iloc_inside (B : Type) (l : list B) (a b : Z) :
  (0 <= a <= b)%Z -> (b <= Z.of_nat (List.length l))%Z ->
  iloc l a b = firstn (Z.to_nat (b - a)) (skipn (Z.to_nat a) l).
Proof.
  intros Hab Hb. unfold iloc, slice_bound.
  destruct (Z.ltb_spec a 0); [lia |]. destruct (Z.ltb_spec b 0); [lia |].
  now rewrite !Z.min_l by lia.
Qed.

Lemma last_shift (B : Type) (l : list B) (x y : B) : last (y :: l) x = last l y.
Proof.
  revert x y. induction l as [| a tl IH]; intros x y; [reflexivity |].
  change (last (y :: a :: tl) x) with (last (a :: tl) x).
  rewrite (IH x a). symmetry. apply IH.
Qed.

Lemma last_firstn (B : Type) (w : nat) (l : list B) (x : B) :
  (w <= List.length l)%nat ->
  nth_error (x :: l) w = Some (last (firstn w l) x).
Proof.
  revert l x. induction w as [| w IH]; intros l x Hw; [reflexivity |].
  destruct l as [| y tl]; [simpl in Hw; lia |].
  cbn [nth_error firstn]. rewrite last_shift. apply IH. simpl in Hw. lia.
Qed.

Lemma endpoints_window (p : list Row) (k w : nat) (s e : Row) :
  (k + w < List.length p)%nat ->
  endpoints (firstn (S w) (skipn k p)) = Some (s, e) ->
  nth_error p k = Some s /\ nth_error p (k + w) = Some e.
Proof.
  intros Hk. rewrite <- (Nat.add_0_r k) at 2.
  rewrite <- !nth_error_skipn.
  pose proof (length_skipn k p) as Hlen.
  destruct (skipn k p) as [| x tl]; [simpl in Hlen; lia |].
  cbn [firstn endpoints]. intros H. injection H as <- <-.
  split; [reflexivity |]. apply last_firstn. simpl in Hlen. lia.
Qed.

Lemma dropna_fixed (panel l : list Row) :
  (forall r, In r l -> In r (dropna panel)) -> dropna l = l.
Proof.
  intros H. unfold dropna. apply forallb_filter_id. apply forallb_forall.
  intros r Hr. specialize (H r Hr). unfold dropna in H.
  now apply filter_In in H.
Qed.

Lemma sorted_valid_In (panel : list Row) (r : Row) :
  In r (sorted_valid panel) <-> In r (dropna panel).
Proof. unfold sorted_valid. apply sort_values_In. Qed.

Lemma sorted_valid_length (panel : list Row) :
  List.length (sorted_valid panel) = List.length (dropna panel).
Proof. unfold sorted_valid. apply sort_values_length. Qed.

(** On a cleaned series every window of the loop decomposes, and it is the
    decomposition between the row [window] places back and the row at the
    index. *)
Lemma window_decomposes (panel : list Row) (w i : Z) :
  Forall cleaned panel ->
  (1 <= w)%Z -> (w <= i < Z.of_nat (List.length (sorted_valid panel)))%Z ->
  exists (s e : Row) (d : Decomposition),
    nth_error (sorted_valid panel) (Z.to_nat (i - w)) = Some s /\
    nth_error (sorted_valid panel) (Z.to_nat i) = Some e /\
    decompose_endpoints (window (sorted_valid panel) w i) = Returns d /\
    decompose_endpoints [s; e] = Returns d /\
    start d = date s /\ end_ d = date e.
Proof.
  intros Hclean Hw Hi. set (p := sorted_valid panel) in *.
  unfold window. rewrite iloc_inside by lia.
  replace (Z.to_nat (i + 1 - (i - w))) with (S (Z.to_nat w)) by lia.
  set (k := Z.to_nat (i - w)). set (sl := firstn (S (Z.to_nat w)) (skipn k p)).
  assert (Hsub : forall r, In r sl -> In r (dropna panel)).
  { intros r Hr. apply sorted_valid_In. fold p. unfold sl in Hr.
    rewrite <- (firstn_skipn k p). apply in_or_app. right.
    rewrite <- (firstn_skipn (S (Z.to_nat w)) (skipn k p)).
    apply in_or_app. now left. }
  pose proof (dropna_fixed panel sl Hsub) as Hdrop.
  assert (Hlen : List.length sl = S (Z.to_nat w)).
  { unfold sl. rewrite length_firstn, length_skipn. unfold k. lia. }
  destruct sl as [| s [| r rest]] eqn:Hsl; try (simpl in Hlen; lia).
  assert (Hs : valid_row s = true).
  { assert (Hin : In s (dropna panel)) by (apply Hsub; now left).
    rewrite (dropna_cleaned panel Hclean) in Hin. now apply filter_In in Hin. }
  destruct (valid_row_positive s Hs) as (Hp & Hm & He).
  destruct (decompose_endpoints_returns (s :: r :: rest) s (r :: rest) Hdrop)
    as [d Hd]; try assumption; [discriminate |].
  destruct (decompose_endpoints_pair _ d Hd) as (s' & e & Hends & Hstart & Hend & Hpair).
  rewrite Hdrop, <- Hsl in Hends. unfold sl in Hends.
  apply endpoints_window in Hends; [| unfold k; lia].
  destruct Hends as [Hks Hke].
  exists s', e, d. repeat split; try assumption.
  replace (Z.to_nat i) with (k + Z.to_nat w)%nat by (unfold k; lia).
  exact Hke.
Qed.

Lemma flat_map_singletons (B C : Type) (f : B -> list C) (l : list B) :
  (forall x, In x l -> exists y, f x = [y]) ->
  List.length (flat_map f l) = List.length l /\
  forall k r, nth_error (flat_map f l) k = Some r ->
              exists x, nth_error l k = Some x /\ f x = [r].
Proof.
  induction l as [| x tl IH]; intros H.
  - split; [reflexivity |]. intros k r Hk. destruct k; discriminate.
  - destruct (H x (or_introl eq_refl)) as [y Hy].
    destruct IH as [IHlen IHnth]; [intros z Hz; apply H; now right |].
    cbn [flat_map]. rewrite Hy. split; [simpl; now rewrite IHlen |].
    intros [| k] r Hk; simpl in Hk.
    + injection Hk as <-. exists x. now split.
    + exact (IHnth k r Hk).
Qed.

Lemma range_nth_error (lo hi : Z) (k : nat) (i : Z) :
  nth_error (range lo hi) k = Some i -> i = (lo + Z.of_nat k)%Z /\ (i < hi)%Z.
Proof.
  unfold range. rewrite nth_error_map. intros H.
  destruct (nth_error (seq 0 (Z.to_nat (hi - lo))) k) as [j |] eqn:Hj;
    [| discriminate].
  injection H as <-. pose proof (nth_error_In _ _ Hj) as Hin.
  apply in_seq in Hin.
  assert (Hk : (k < List.length (seq 0 (Z.to_nat (hi - lo))))%nat).
  { apply nth_error_Some. congruence. }
  rewrite nth_error_seq in Hj. rewrite length_seq in Hk.
  destruct (Nat.ltb_spec k (Z.to_nat (hi - lo))); [| lia].
  injection Hj as <-. simpl. lia.
Qed.

(** The rows of the loop on a cleaned series, one per index. *)
Lemma rolling_rows_by_index (panel : list Row) (ticker : string) (w : Z)
    (m c : float) (rows : list RollingRow) :
  Forall cleaned panel -> (1 <= w)%Z ->
  rolling_decomposition panel ticker w m c = Returns rows ->
  List.length rows =
    Z.to_nat (Z.of_nat (List.length (dropna panel)) - w) /\
  forall (k : nat) (r : RollingRow),
    nth_error rows k = Some r ->
    exists (s e : Row) (d : Decomposition),
      nth_error (sorted_valid panel) k = Some s /\
      nth_error (sorted_valid panel) (k + Z.to_nat w) = Some e /\
      decompose_endpoints [s; e] = Returns d /\
      start d = date s /\ end_ d = date e /\
      r = window_row ticker m c d.
Proof.
  intros Hclean Hw Hrows. unfold rolling_decomposition in Hrows.
  fold (sorted_valid panel) in Hrows. rewrite rolling_step_fold in Hrows.
  simpl in Hrows. injection Hrows as <-.
  set (p := sorted_valid panel) in *.
  assert (Hsingle : forall i, In i (range w (Z.of_nat (List.length p))) ->
                      exists y, window_rows p ticker w m c i = [y]).
  { intros i Hi. apply range_In in Hi.
    destruct (window_decomposes panel w i Hclean Hw Hi)
      as (s & e & d & _ & _ & Hd & _).
    fold p in Hd. unfold window_rows. rewrite Hd. now eexists. }
  destruct (flat_map_singletons _ _ _ _ Hsingle) as [Hlen Hnth].
  split.
  - rewrite Hlen. unfold range. rewrite length_map, length_seq.
    unfold p. now rewrite sorted_valid_length.
  - intros k r Hk. destruct (Hnth k r Hk) as (i & Hi & Hr).
    apply range_nth_error in Hi. destruct Hi as [-> Hi].
    destruct (window_decomposes panel w (w + Z.of_nat k) Hclean Hw)
      as (s & e & d & Hs & He & Hd & Hpair & Hstart & Hend); [fold p; lia |].
    fold p in Hs, He, Hd. unfold window_rows in Hr. rewrite Hd in Hr.
    injection Hr as <-. exists s, e, d.
    replace (Z.to_nat (w + Z.of_nat k - w)) with k in Hs by lia.
    replace (Z.to_nat (w + Z.of_nat k)) with (k + Z.to_nat w)%nat in He by lia.
    repeat split; assumption.
Qed.

(** X8.  On a cleaned series and a window of at least one month no window
    is skipped: there are exactly [n - window] rows for [n] valid rows,
    and row number [k] is the decomposition between valid row [k] and valid
    row [k + window] of the series sorted by date, whose dates it carries. *)
Theorem rolling_rows_aligned (panel : list Row) (ticker : string) (w : Z)
    (m c : float) (rows : list RollingRow) :
  Forall cleaned panel -> (1 <= w)%Z ->
  rolling_decomposition panel ticker w m c = Returns rows ->
  List.length rows =
    Z.to_nat (Z.of_nat (List.length (dropna panel)) - w) /\
  forall (k : nat) (r : RollingRow),
    nth_error rows k = Some r ->
    exists (s e : Row) (d : Decomposition),
      nth_error (sorted_valid panel) k = Some s /\
      nth_error (sorted_valid panel) (k + Z.to_nat w) = Some e /\
      decompose_endpoints [s; e] = Returns d /\
      row_start r = date s /\ row_end r = date e /\
      r = window_row ticker m c d.
Proof.
  intros Hclean Hw Hrows.
  destruct (rolling_rows_by_index panel ticker w m c rows Hclean Hw Hrows)
    as [Hlen Hnth].
  split; [assumption |]. intros k r Hk.
  destruct (Hnth k r Hk) as (s & e & d & Hs & He & Hd & Hstart & Hend & ->).
  exists s, e, d. cbn [window_row row_start row_end]. repeat split; assumption.
Qed.

Lemma rolling_rows_aligned_witness :
  List.length [example_row] =
    Z.to_nat (Z.of_nat (List.length (dropna example_panel)) - 1) /\
  forall (k : nat) (r : RollingRow),
    nth_error [example_row] k = Some r ->
    exists (s e : Row) (d : Decomposition),
      nth_error (sorted_valid example_panel) k = Some s /\
      nth_error (sorted_valid example_panel) (k + Z.to_nat 1) = Some e /\
      decompose_endpoints [s; e] = Returns d /\
      row_start r = date s /\ row_end r = date e /\
      r = window_row "NVDA" (Fin 0.05) (Fin 200) d.
Proof.
  apply (rolling_rows_aligned example_panel "NVDA" 1 (Fin 0.05) (Fin 200)
           [example_row]).
  - exact example_rows_cleaned.
  - lia.
  - exact example_rolls.
Defined.

Lemma sort_values_acc_sorted (B : Type) (key : B -> Z) (l acc : list B) :
  StronglySorted (by_key key) acc ->
  StronglySorted (by_key key) (fold_left (fun acc x => insert_by key x acc) l acc).
Proof.
  revert acc. induction l as [| x tl IH]; intros acc Hacc; simpl;
    [assumption |].
  apply IH. now apply insert_by_sorted.
Qed.

Lemma sort_values_sorted (B : Type) (key : B -> Z) (l : list B) :
  StronglySorted (by_key key) (sort_values key l).
Proof. apply sort_values_acc_sorted. constructor. Qed.

Lemma sorted_nth_error (l : list Row) (k1 k2 : nat) (a b : Row) :
  StronglySorted (by_key date) l -> (k1 <= k2)%nat ->
  nth_error l k1 = Some a -> nth_error l k2 = Some b ->
  (date a <= date b)%Z.
Proof.
  intros Hsorted. revert k1 k2.
  induction Hsorted as [| x tl Hsorted IH Hx]; intros k1 k2 Hk Ha Hb.
  - destruct k1; discriminate.
  - destruct k1 as [| k1], k2 as [| k2]; simpl in Ha, Hb; try lia.
    + injection Ha as <-. injection Hb as <-. lia.
    + injection Ha as <-. apply nth_error_In in Hb.
      rewrite Forall_forall in Hx. exact (Hx b Hb).
    + apply (IH k1 k2); [lia | assumption | assumption].
Qed.

(** X9.  On a cleaned series and a window of at least one month the rows
    come out in ascending order of end date, and of start date. *)
Theorem rolling_rows_ascending (panel : list Row) (ticker : string) (w : Z)
    (m c : float) (rows : list RollingRow) (k1 k2 : nat) (r1 r2 : RollingRow) :
  Forall cleaned panel -> (1 <= w)%Z ->
  rolling_decomposition panel ticker w m c = Returns rows ->
  (k1 <= k2)%nat ->
  nth_error rows k1 = Some r1 -> nth_error rows k2 = Some r2 ->
  (row_start r1 <= row_start r2)%Z /\ (row_end r1 <= row_end r2)%Z.
Proof.
  intros Hclean Hw Hrows Hk H1 H2.
  destruct (rolling_rows_by_index panel ticker w m c rows Hclean Hw Hrows)
    as [_ Hnth].
  destruct (Hnth k1 r1 H1) as (s1 & e1 & d1 & Hs1 & He1 & _ & Hst1 & Hen1 & ->).
  destruct (Hnth k2 r2 H2) as (s2 & e2 & d2 & Hs2 & He2 & _ & Hst2 & Hen2 & ->).
  cbn [window_row row_start row_end]. rewrite Hst1, Hst2, Hen1, Hen2.
  pose proof (sort_values_sorted Row date (dropna panel)) as Hsorted.
  fold (sorted_valid panel) in Hsorted. split.
  - apply (sorted_nth_error (sorted_valid panel) k1 k2); assumption.
  - apply (sorted_nth_error (sorted_valid panel)
             (k1 + Z.to_nat w) (k2 + Z.to_nat w)); try assumption. lia.
Qed.

Lemma three_months_roll :
  rolling_decomposition three_months "NVDA" 1 (Fin 0.05) (Fin 200) =
  Returns [early_row; late_row].
Proof.
  assert (Hearly : decompose_endpoints [example_jan; example_jun] =
                   Returns early_decomposition).
  { apply (decompose_pair_valid example_jan example_jun 100 10 120 8);
      try reflexivity; lra. }
  assert (Hlate : decompose_endpoints [example_jun; example_dec] =
                  Returns late_decomposition).
  { apply (decompose_pair_valid example_jun example_dec 120 8 150 12);
      try reflexivity; lra. }
  unfold rolling_decomposition.
  change (sort_values date (dropna three_months)) with three_months.
  change (range 1 (Z.of_nat (List.length three_months))) with [1%Z; 2%Z].
  cbn [fold_left]. unfold rolling_step.
  change (window three_months 1 1) with [example_jan; example_jun].
  change (window three_months 1 2) with [example_jun; example_dec].
  rewrite Hearly, Hlate. reflexivity.
Qed.

Lemma three_months_cleaned : Forall cleaned three_months.
Proof.
  unfold three_months. repeat apply Forall_cons; [| | | apply Forall_nil];
    unfold cleaned, missing_or_positive; simpl; repeat split; right; lra.
Qed.

Lemma rolling_rows_ascending_witness :
  (row_start early_row <= row_start late_row)%Z /\
  (row_end early_row <= row_end late_row)%Z.
Proof.
  apply (rolling_rows_ascending three_months "NVDA" 1 (Fin 0.05) (Fin 200)
           [early_row; late_row] 0 1 early_row late_row).
  - exact three_months_cleaned.
  - lia.
  - exact three_months_roll.
  - lia.
  - reflexivity.
  - reflexivity.
Defined.

Lemma clamp_spec_bounded (cap : R) (s : float) :
  0 <= cap ->
  clamp_spec cap s = NaN \/ exists v : R, clamp_spec cap s = Fin v /\ Rabs v <= cap.
Proof.
  intros Hcap. destruct s as [v | | |]; simpl.
  - right. destruct (Rlt_dec cap (Rabs v)) as [Hbig | Hsmall].
    + eexists. split; [reflexivity |]. unfold Rsign.
      destruct (Rlt_dec 0 v); [rewrite Rabs_pos_eq; lra |].
      destruct (Rlt_dec v 0).
      * replace (-1 * cap) with (- cap) by lra. rewrite Rabs_Ropp.
        rewrite Rabs_pos_eq; lra.
      * rewrite Rmult_0_l, Rabs_R0. assumption.
    + exists v. split; [reflexivity | lra].
  - right. eexists. split; [reflexivity |]. rewrite Rabs_pos_eq; lra.
  - right. eexists. split; [reflexivity |].
    replace (-1 * cap) with (- cap) by lra. rewrite Rabs_Ropp.
    rewrite Rabs_pos_eq; lra.
  - now left.
Qed.

(** X10.  With a cap that is not negative no emitted share lies beyond it:
    each of the two shares of a rolling row is missing or a number of
    absolute value at most the cap. *)
Theorem rolling_shares_within_cap (panel : list Row) (ticker : string) (w : Z)
    (m : float) (cap : R) (rows : list RollingRow) (rec : RollingRow) :
  0 <= cap ->
  rolling_decomposition panel ticker w m (Fin cap) = Returns rows ->
  In rec rows ->
  (row_share_eps_pct rec = NaN \/
   exists v : R, row_share_eps_pct rec = Fin v /\ Rabs v <= cap) /\
  (row_share_multiple_pct rec = NaN \/
   exists v : R, row_share_multiple_pct rec = Fin v /\ Rabs v <= cap).
Proof.
  intros Hcap Hrows Hin.
  apply (rolling_rows_In panel ticker w m (Fin cap) rows rec Hrows) in Hin.
  destruct Hin as (i & d & _ & _ & ->).
  unfold window_row. cbn [row_share_eps_pct row_share_multiple_pct].
  destruct (isfinite (log_price d) && fge (fabs (log_price d)) m).
  - rewrite !np_clip_clamp by assumption.
    split; now apply clamp_spec_bounded.
  - split; now left.
Qed.

Lemma rolling_shares_within_cap_witness :
  (row_share_eps_pct example_row = NaN \/
   exists v : R, row_share_eps_pct example_row = Fin v /\ Rabs v <= 200) /\
  (row_share_multiple_pct example_row = NaN \/
   exists v : R, row_share_multiple_pct example_row = Fin v /\ Rabs v <= 200).
Proof.
  apply (rolling_shares_within_cap example_panel "NVDA" 1 (Fin 0.05) 200
           [example_row] example_row).
  - lra.
  - exact example_rolls.
  - now left.
Defined.

Lemma np_clip_Fin (a lo hi : R) :
  exists v : R, np_clip (Fin a) (Fin lo) (Fin hi) = Fin v.
Proof.
  unfold np_clip. cbn [np_maximum flt].
  destruct (Rltb a lo); cbn [np_minimum flt];
    match goal with |- context [Rltb ?x ?y] => destruct (Rltb x y) end;
    now eexists.
Qed.

(** X11.  Over valid observations, with a threshold above 1e-12 and a
    finite cap, a rolling row carries numbers as shares exactly when it is
    flagged stable. *)
Theorem shares_are_numbers_iff_stable (panel : list Row) (ticker : string)
    (w : Z) (m cap : R) (rows : list RollingRow) (rec : RollingRow) :
  (forall r, In r (dropna panel) -> valid_obs r) ->
  1e-12 < m ->
  rolling_decomposition panel ticker w (Fin m) (Fin cap) = Returns rows ->
  In rec rows ->
  (stable_for_shares rec = true <->
   exists a : R, row_share_eps_pct rec = Fin a) /\
  (stable_for_shares rec = true <->
   exists b : R, row_share_multiple_pct rec = Fin b).
Proof.
  intros Hvalid Hm Hrows Hin.
  apply (rolling_rows_In panel ticker w (Fin m) (Fin cap) rows rec Hrows) in Hin.
  destruct Hin as (i & d & _ & Hd & ->).
  destruct (window_closed_form panel w i d Hvalid Hd)
    as (p0 & m0 & p1 & m1 & _ & _ & _ & _ & Hlp & _ & _ & Hse & Hsm).
  unfold window_row.
  cbn [stable_for_shares row_share_eps_pct row_share_multiple_pct].
  rewrite Hlp, Hse, Hsm. cbn [isfinite fabs fge fle andb]. unfold share_of.
  destruct (Rleb m (Rabs (ln (p1 / p0)))) eqn:Hstable.
  - apply Rleb_iff in Hstable. rewrite Rltb_true by lra. cbn [fneg].
    split; (split; [intros _; apply np_clip_Fin | reflexivity]).
  - split; (split; [discriminate | intros [x Hx]; discriminate]).
Qed.

Lemma shares_are_numbers_iff_stable_witness :
  (stable_for_shares example_row = true <->
   exists a : R, row_share_eps_pct example_row = Fin a) /\
  (stable_for_shares example_row = true <->
   exists b : R, row_share_multiple_pct example_row = Fin b).
Proof.
  apply (shares_are_numbers_iff_stable example_panel "NVDA" 1 0.05 200
           [example_row] example_row).
  - intros r Hr. apply dropna_In in Hr.
    exact (proj1 (Forall_forall valid_obs example_panel) example_rows_valid r Hr).
  - lra.
  - exact example_rolls.
  - now left.
Defined.

(** X12.  In exact real arithmetic (finite doubles read as the reals they
    denote: no rounding, underflow or overflow), over valid observations
    every rolling row satisfies the log identity: its three logarithms are
    real numbers and the price one is the sum of the other two. *)
Theorem rolling_log_identity (panel : list Row) (ticker : string) (w : Z)
    (m c : float) (rows : list RollingRow) (rec : RollingRow) :
  (forall r, In r (dropna panel) -> valid_obs r) ->
  rolling_decomposition panel ticker w m c = Returns rows ->
  In rec rows ->
  exists lp lv lm : R,
    row_log_price rec = Fin lp /\ row_log_eps rec = Fin lv /\
    row_log_multiple rec = Fin lm /\ lp = lv + lm.
Proof.
  intros Hvalid Hrows Hin.
  apply (rolling_rows_In panel ticker w m c rows rec Hrows) in Hin.
  destruct Hin as (i & d & _ & Hd & ->).
  destruct (window_closed_form panel w i d Hvalid Hd)
    as (p0 & m0 & p1 & m1 & Hp0 & Hm0 & Hp1 & Hm1 & Hlp & Hlv & Hlm & _).
  cbn [window_row row_log_price row_log_eps row_log_multiple].
  rewrite Hlp, Hlv, Hlm. eexists _, _, _. repeat split.
  now apply log_identity.
Qed.

Lemma rolling_log_identity_witness :
  exists lp lv lm : R,
    row_log_price example_row = Fin lp /\ row_log_eps example_row = Fin lv /\
    row_log_multiple example_row = Fin lm /\ lp = lv + lm.
Proof.
  apply (rolling_log_identity example_panel "NVDA" 1 (Fin 0.05) (Fin 200)
           [example_row] example_row).
  - intros r Hr. apply dropna_In in Hr.
    exact (proj1 (Forall_forall valid_obs example_panel) example_rows_valid r Hr).
  - exact example_rolls.
  - now left.
Defined.

End RollingFacts.


(* ================================================================= *)
(** ** More on the loader *)

Section LoaderFacts.

Local Open Scope R_scope.

Lemma group_keys_acc_In (k : Z) (l acc : list Z) :
  In k (fold_left (fun acc k => insert_key k acc) l acc) <-> In k l \/ In k acc.
Proof.
  revert acc. induction l as [| x tl IH]; intros acc; simpl; [intuition |].
  rewrite IH, insert_key_In. intuition.
Qed.

Lemma group_keys_In (k : Z) (l : list Z) : In k (group_keys l) <-> In k l.
Proof. unfold group_keys. rewrite group_keys_acc_In. simpl. intuition. Qed.

Lemma normalize_dates (raw : list RawRow) (k : Z) :
  In k (map m_date (normalize raw)) <->
  exists x, In x raw /\ to_month_start (raw_date x) = Some k.
Proof.
  rewrite in_map_iff. unfold normalize. split.
  - intros (r & <- & Hr). apply in_flat_map in Hr. destruct Hr as (x & Hx & Hr).
    exists x. split; [assumption |].
    destruct (to_month_start (raw_date x)); simpl in Hr; [| contradiction].
    destruct Hr as [<- | []]. reflexivity.
  - intros (x & Hx & Hk).
    exists {| m_date := k; m_price := safe_pos (raw_price x);
              m_pe := safe_pos (raw_pe x) |}.
    split; [reflexivity |]. apply in_flat_map. exists x. split; [assumption |].
    rewrite Hk. now left.
Qed.

(** X13.  The loaded panel has one row for each month in which the file
    has a row with a readable date, and no other; its dates increase
    strictly.  A month is kept even when all its prices are missing, and a
    row whose date cannot be read adds nothing. *)
Theorem load_pe_monthly_months (raw : list RawRow) :
  StronglySorted Z.lt (map date (load_pe_monthly raw)) /\
  forall k : Month,
    In k (map date (load_pe_monthly raw)) <->
    exists x, In x raw /\ to_month_start (raw_date x) = Some k.
Proof.
  split; [apply load_pe_monthly_sorted |].
  intros k. rewrite load_pe_monthly_dates, group_keys_In, <- normalize_dates.
  rewrite !in_map_iff. split.
  - intros (r & Hr & Hin). exists r. split; [assumption |].
    now apply sort_values_In in Hin.
  - intros (r & Hr & Hin). exists r. split; [assumption |].
    now apply sort_values_In.
Qed.

Lemma implied_eps_defined (x y : float) :
  implied_eps x y <> NaN -> x <> NaN /\ y <> NaN.
Proof.
  intros H. split; intros ->; apply H.
  - apply implied_eps_NaN_l.
  - apply implied_eps_NaN_r.
Qed.

(** X14.  The loader never lets a zero or a negative number through: in
    every row each of price, pe and eps is missing or above zero, eps is
    [safe_pos(price / pe)], and eps is present only when price and pe
    both are. *)
Theorem load_pe_monthly_cells (raw : list RawRow) (r : Row) :
  In r (load_pe_monthly raw) ->
  cleaned r /\
  eps r = safe_pos (ieee_div (price r) (pe r)) /\
  (eps r <> NaN -> price r <> NaN /\ pe r <> NaN).
Proof.
  intros Hr.
  pose proof (load_pe_monthly_cleaned raw) as Hclean.
  rewrite Forall_forall in Hclean.
  destruct (load_pe_monthly_row raw r Hr) as (_ & _ & He).
  split; [now apply Hclean |]. split; [exact He |].
  rewrite He. apply implied_eps_defined.
Qed.

Lemma load_pe_monthly_cells_witness :
  cleaned (mkRow 600%Z (Fin 100) (Fin 12) (Fin (100 / 12))) /\
  eps (mkRow 600%Z (Fin 100) (Fin 12) (Fin (100 / 12))) =
    safe_pos (ieee_div (price (mkRow 600%Z (Fin 100) (Fin 12) (Fin (100 / 12))))
                       (pe (mkRow 600%Z (Fin 100) (Fin 12) (Fin (100 / 12))))) /\
  (eps (mkRow 600%Z (Fin 100) (Fin 12) (Fin (100 / 12))) <> NaN ->
   price (mkRow 600%Z (Fin 100) (Fin 12) (Fin (100 / 12))) <> NaN /\
   pe (mkRow 600%Z (Fin 100) (Fin 12) (Fin (100 / 12))) <> NaN).
Proof.
  apply (load_pe_monthly_cells january_twice).
  assert (H100 : safe_pos (Fin 100) = Fin 100)
    by (apply safe_pos_positive; simpl; lra).
  assert (H10 : safe_pos (Fin 10) = Fin 10)
    by (apply safe_pos_positive; simpl; lra).
  assert (H12 : safe_pos (Fin 12) = Fin 12)
    by (apply safe_pos_positive; simpl; lra).
  unfold load_pe_monthly, january_twice, normalize.
  cbn [flat_map to_month_start option_map raw_date raw_price raw_pe
       year month app].
  rewrite H100, H10, H12.
  change (safe_pos NaN) with NaN.
  change ((2020 - 1970) * 12 + (1 - 1))%Z with 600%Z.
  cbn. rewrite implied_eps_quotient by lra. now left.
Defined.

(** X15.  The endpoint decomposition of a loaded panel never divides by
    zero: either fewer than two rows have price, pe and eps, and it raises
    its [ValueError], or it returns. *)
Theorem loaded_panel_decomposes (raw : list RawRow) :
  ((List.length (dropna (load_pe_monthly raw)) < 2)%nat /\
   decompose_endpoints (load_pe_monthly raw) = Raises (ValueError not_enough_rows))
  \/
  ((2 <= List.length (dropna (load_pe_monthly raw)))%nat /\
   exists d, decompose_endpoints (load_pe_monthly raw) = Returns d).
Proof.
  pose proof (load_pe_monthly_cleaned raw) as Hclean.
  pose proof (dropna_cleaned _ Hclean) as Hdrop.
  destruct (dropna (load_pe_monthly raw)) as [| s [| r rest]] eqn:Hp.
  - left. split; [simpl; lia |]. apply decompose_endpoints_short.
    rewrite Hp. simpl. lia.
  - left. split; [simpl; lia |]. apply decompose_endpoints_short.
    rewrite Hp. simpl. lia.
  - right. split; [simpl; lia |].
    assert (Hs : valid_row s = true).
    { assert (Hin : In s (filter valid_row (load_pe_monthly raw)))
        by (rewrite <- Hdrop; now left).
      now apply filter_In in Hin. }
    destruct (valid_row_positive s Hs) as (Hprice & Hpe & Heps).
    apply (decompose_endpoints_returns _ s (r :: rest) Hp); try assumption.
    discriminate.
Qed.

(** X16.  From file to decomposition, in exact real arithmetic (finite
    doubles read as the reals they denote: no rounding, underflow or
    overflow): on a file without infinite cells, whenever the endpoint
    decomposition of the loaded panel returns, its three logarithms are
    real numbers and the price one is the sum of the other two. *)
Theorem loaded_panel_log_identity (raw : list RawRow) (d : Decomposition) :
  (forall x, In x raw -> raw_price x <> PInf /\ raw_pe x <> PInf) ->
  decompose_endpoints (load_pe_monthly raw) = Returns d ->
  exists lp lv lm : R,
    log_price d = Fin lp /\ log_eps d = Fin lv /\ log_multiple d = Fin lm /\
    lp = lv + lm.
Proof.
  intros Hraw Hd.
  pose proof (load_pe_monthly_valid raw Hraw) as Hvalid.
  pose proof (decompose_endpoints_two_rows _ _ Hd) as Hlen.
  destruct (decompose_endpoints_ends _ _ Hd) as (s & e & Hends).
  destruct (endpoints_In _ _ _ Hends) as [Hs He].
  destruct (Hvalid s Hs) as (p0 & m0 & Hp0 & Hm0 & Hps & Hms & Hes).
  destruct (Hvalid e He) as (p1 & m1 & Hp1 & Hm1 & Hpe & Hme & Hee).
  rewrite (decompose_endpoints_valid _ s e p0 m0 p1 m1) in Hd by assumption.
  injection Hd as <-. cbn [log_price log_eps log_multiple].
  eexists _, _, _. repeat split. now apply log_identity.
Qed.

Lemma example_file_loads : load_pe_monthly example_file = example_panel.
Proof.
  assert (H100 : safe_pos (Fin 100) = Fin 100)
    by (apply safe_pos_positive; simpl; lra).
  assert (H10 : safe_pos (Fin 10) = Fin 10)
    by (apply safe_pos_positive; simpl; lra).
  assert (H150 : safe_pos (Fin 150) = Fin 150)
    by (apply safe_pos_positive; simpl; lra).
  assert (H12 : safe_pos (Fin 12) = Fin 12)
    by (apply safe_pos_positive; simpl; lra).
  unfold load_pe_monthly, example_file, normalize.
  cbn [flat_map to_month_start option_map raw_date raw_price raw_pe
       year month app].
  rewrite H100, H10, H150, H12.
  change ((2020 - 1970) * 12 + (1 - 1))%Z with 600%Z.
  change ((2020 - 1970) * 12 + (12 - 1))%Z with 611%Z.
  cbn. rewrite !implied_eps_quotient by lra. reflexivity.
Qed.

Lemma loaded_panel_log_identity_witness :
  exists lp lv lm : R,
    log_price example_decomposition = Fin lp /\
    log_eps example_decomposition = Fin lv /\
    log_multiple example_decomposition = Fin lm /\
    lp = lv + lm.
Proof.
  apply (loaded_panel_log_identity example_file example_decomposition).
  - intros x [<- | [<- | []]]; split; discriminate.
  - rewrite example_file_loads. exact example_decomposes.
Defined.

(** *** Loading a loaded panel *)

Lemma month_start_round_trip (k : Month) :
  to_month_start (Some (month_start k)) = Some k.
Proof.
  unfold to_month_start, month_start. cbn [option_map year month]. f_equal.
  pose proof (Z.div_mod k 12). lia.
Qed.

Lemma safe_pos_fixed (x : float) : missing_or_positive x -> safe_pos x = x.
Proof. intros [-> | Hx]; [reflexivity | now apply safe_pos_positive]. Qed.

Lemma sorted_app_before (B : Type) (R : B -> B -> Prop) (acc tl : list B) (x : B) :
  StronglySorted R (acc ++ x :: tl) -> Forall (fun y => R y x) acc.
Proof.
  induction acc as [| a acc IH]; simpl; intros H; [constructor |].
  apply StronglySorted_inv in H. destruct H as [Hsorted Ha].
  constructor; [| now apply IH].
  rewrite Forall_forall in Ha. apply Ha. apply in_or_app. right. now left.
Qed.

Lemma insert_by_max (B : Type) (key : B -> Z) (x : B) (acc : list B) :
  Forall (fun y => by_key key y x) acc -> insert_by key x acc = acc ++ [x].
Proof.
  induction 1 as [| y tl Hy Htl IH]; simpl; [reflexivity |].
  unfold by_key in Hy. destruct (Z.ltb_spec (key x) (key y)); [lia |].
  now rewrite IH.
Qed.

Lemma sort_values_acc_id (B : Type) (key : B -> Z) (l acc : list B) :
  StronglySorted (by_key key) (acc ++ l) ->
  fold_left (fun acc x => insert_by key x acc) l acc = acc ++ l.
Proof.
  revert acc. induction l as [| x tl IH]; intros acc H; simpl.
  - now rewrite app_nil_r.
  - rewrite insert_by_max by (eapply sorted_app_before; exact H).
    rewrite IH; rewrite <- app_assoc; [reflexivity | exact H].
Qed.

(** Sorting a frame that is in ascending order leaves it as it is. *)
Lemma sort_values_id (B : Type) (key : B -> Z) (l : list B) :
  StronglySorted (by_key key) l -> sort_values key l = l.
Proof. intros H. unfold sort_values. now rewrite sort_values_acc_id. Qed.

Lemma insert_key_max (k : Z) (acc : list Z) :
  Forall (fun y => (y < k)%Z) acc -> insert_key k acc = acc ++ [k].
Proof.
  induction 1 as [| y tl Hy Htl IH]; simpl; [reflexivity |].
  destruct (Z.ltb_spec k y); [lia |]. destruct (Z.eqb_spec k y); [lia |].
  now rewrite IH.
Qed.

Lemma group_keys_acc_id (l acc : list Z) :
  StronglySorted Z.lt (acc ++ l) ->
  fold_left (fun acc k => insert_key k acc) l acc = acc ++ l.
Proof.
  revert acc. induction l as [| x tl IH]; intros acc H; simpl.
  - now rewrite app_nil_r.
  - rewrite insert_key_max by (eapply sorted_app_before; exact H).
    rewrite IH; rewrite <- app_assoc; [reflexivity | exact H].
Qed.

Lemma group_keys_id (l : list Z) : StronglySorted Z.lt l -> group_keys l = l.
Proof. intros H. unfold group_keys. now rewrite group_keys_acc_id. Qed.

Lemma strictly_sorted_by_key (B : Type) (key : B -> Z) (l : list B) :
  StronglySorted Z.lt (map key l) -> StronglySorted (by_key key) l.
Proof.
  induction l as [| x tl IH]; simpl; intros H; [constructor |].
  apply StronglySorted_inv in H. destruct H as [Hsorted Hx].
  constructor; [now apply IH |].
  rewrite Forall_forall in *. intros y Hy. unfold by_key.
  specialize (Hx (key y) (in_map key tl y Hy)). lia.
Qed.

Lemma filter_unique (B : Type) (key : B -> Z) (l : list B) (r : B) :
  StronglySorted Z.lt (map key l) -> In r l ->
  filter (fun r' => (key r' =? key r)%Z) l = [r].
Proof.
  induction l as [| x tl IH]; simpl; intros H Hr; [contradiction |].
  apply StronglySorted_inv in H. destruct H as [Hsorted Hx].
  assert (Htl : Forall (fun y => (key x < key y)%Z) tl).
  { rewrite Forall_forall in *. intros y Hy.
    apply Hx. now apply in_map. }
  destruct Hr as [-> | Hr].
  - rewrite Z.eqb_refl. f_equal. now apply filter_above.
  - rewrite Forall_forall in Htl. specialize (Htl r Hr).
    destruct (Z.eqb_spec (key x) (key r)); [lia |]. now apply IH.
Qed.

(** On a frame with one row per month, in ascending order, taking the
    last cells of each month changes nothing. *)
Lemma groupby_date_last_id (rows : list Monthly) :
  StronglySorted Z.lt (map m_date rows) -> groupby_date_last rows = rows.
Proof.
  intros H. unfold groupby_date_last. rewrite (group_keys_id _ H), map_map.
  transitivity (map (fun r : Monthly => r) rows); [| apply map_id].
  apply map_ext_in. intros r Hr.
  rewrite (filter_unique Monthly m_date rows r H Hr). simpl.
  now destruct r.
Qed.

Lemma normalize_as_raw (panel : list Row) :
  Forall cleaned panel ->
  normalize (map as_raw panel) =
  map (fun r => {| m_date := date r; m_price := price r; m_pe := pe r |}) panel.
Proof.
  unfold normalize. induction 1 as [| r tl Hr Htl IH]; [reflexivity |].
  cbn [map flat_map]. rewrite IH. unfold as_raw.
  cbn [raw_date raw_price raw_pe]. rewrite month_start_round_trip.
  destruct Hr as (Hp & Hm & _). now rewrite !safe_pos_fixed.
Qed.

(** A panel with strictly ascending dates, cleaned cells and eps derived
    from price and pe is what the loader makes of it. *)
Lemma load_pe_monthly_fixed (panel : list Row) :
  StronglySorted Z.lt (map date panel) ->
  Forall cleaned panel ->
  (forall r, In r panel -> eps r = implied_eps (price r) (pe r)) ->
  load_pe_monthly (map as_raw panel) = panel.
Proof.
  intros Hsorted Hclean Heps. unfold load_pe_monthly.
  rewrite (normalize_as_raw panel Hclean).
  set (rows := map (fun r => {| m_date := date r; m_price := price r;
                                m_pe := pe r |}) panel).
  assert (Hdates : map m_date rows = map date panel).
  { unfold rows. rewrite map_map. reflexivity. }
  assert (Hrows : StronglySorted Z.lt (map m_date rows)) by now rewrite Hdates.
  rewrite sort_values_id by now apply strictly_sorted_by_key.
  rewrite (groupby_date_last_id rows Hrows). unfold rows. rewrite map_map.
  transitivity (map (fun r : Row => r) panel); [| apply map_id].
  apply map_ext_in. intros r Hr.
  cbn [m_date m_price m_pe]. rewrite <- (Heps r Hr). now destruct r.
Qed.

(** X17.  Loading is idempotent: a loaded panel written out and run
    through the loader again comes back unchanged. *)
Theorem load_pe_monthly_idempotent (raw : list RawRow) :
  load_pe_monthly (map as_raw (load_pe_monthly raw)) = load_pe_monthly raw.
Proof.
  apply load_pe_monthly_fixed.
  - apply load_pe_monthly_sorted.
  - apply load_pe_monthly_cleaned.
  - intros r Hr. now destruct (load_pe_monthly_row raw r Hr) as (_ & _ & He).
Qed.

End LoaderFacts.


(* ================================================================= *)
(** ** The loader on a file *)

Section CsvFacts.

Variable Cell : Type.
Variable to_datetime : list Cell -> list (option Timestamp).
Variable to_numeric : list Cell -> list float.
Variable dates_to_numeric : list (option Month) -> list float.

Lemma pick_first_ext (d1 d2 : dict) (candidates : list string) :
  (forall cand, In cand candidates ->
                dict_get (lower cand) d1 = dict_get (lower cand) d2) ->
  pick_first d1 candidates = pick_first d2 candidates.
Proof.
  induction candidates as [| cand tl IH]; intros H; simpl; [reflexivity |].
  rewrite (H cand) by now left.
  destruct (dict_get (lower cand) d2); [reflexivity |].
  apply IH. intros x Hx. apply H. now right.
Qed.

(** Storing a column under a name that answers none of the candidates
    does not change what [pick_col] returns. *)
Lemma pick_col_set_item (name : string) (s : Series Cell) (df : DataFrame Cell)
    (candidates : list string) :
  (forall cand, In cand candidates -> lower cand <> lower name) ->
  pick_col (columns (set_item name s df)) candidates =
  pick_col (columns df) candidates.
Proof.
  intros H. unfold set_item. cbn [columns].
  destruct (existsb (String.eqb name) (columns df)); [reflexivity |].
  unfold pick_col. apply pick_first_ext. intros cand Hcand.
  rewrite lower_index_snoc.
  destruct (String.eqb_spec (lower cand) (lower name)) as [Heq | _];
    [now apply H in Heq | reflexivity].
Qed.

Lemma price_is_not_date (cand : string) :
  In cand price_candidates -> lower cand <> lower "date".
Proof.
  unfold price_candidates. intros H. simpl in H.
  repeat (destruct H as [<- | H]; [discriminate |]). contradiction.
Qed.

Lemma pe_is_not_date (cand : string) :
  In cand pe_candidates -> lower cand <> lower "date".
Proof.
  unfold pe_candidates. intros H. simpl in H.
  repeat (destruct H as [<- | H]; [discriminate |]). contradiction.
Qed.

Lemma pe_is_not_price (cand : string) :
  In cand pe_candidates -> lower cand <> lower "price".
Proof.
  unfold pe_candidates. intros H. simpl in H.
  repeat (destruct H as [<- | H]; [discriminate |]). contradiction.
Qed.

Lemma pick_col_answers (columns candidates : list string) (c : string) :
  pick_col columns candidates = Some c ->
  exists cand, In cand candidates /\ lower c = lower cand.
Proof.
  intros H. destruct (pick_col_some columns candidates c H)
    as (_ & earlier & cand & later & -> & Hc & _).
  exists cand. split; [apply in_or_app; right; now left | exact Hc].
Qed.

Lemma load_pe_monthly_csv_plain (name : string) (file : CsvFile Cell) :
  load_pe_monthly_csv Cell to_datetime to_numeric dates_to_numeric name file =
  match pick_col (header file) date_candidates with
  | None => Raises (no_date_column name)
  | Some date_col =>
      match pick_col (header file) price_candidates with
      | None => Raises (no_price_column name)
      | Some price_col =>
          match pick_col (header file) pe_candidates with
          | None => Raises (no_pe_column name)
          | Some pe_col =>
              Returns
                (load_pe_monthly
                   (zip_rows (to_datetime (cells file date_col))
                             (to_numeric (cells file price_col))
                             (to_numeric (cells file pe_col))))
          end
      end
  end.
Proof.
  unfold load_pe_monthly_csv.
  change (columns (read_csv file)) with (header file).
  destruct (pick_col (header file) date_candidates) as [date_col |];
    [| reflexivity].
  rewrite pick_col_set_item by exact price_is_not_date.
  change (columns (read_csv file)) with (header file).
  destruct (pick_col (header file) price_candidates) as [price_col |] eqn:Hprice;
    [| reflexivity].
  rewrite !pick_col_set_item by first [exact pe_is_not_price | exact pe_is_not_date].
  change (columns (read_csv file)) with (header file).
  destruct (pick_col (header file) pe_candidates) as [pe_col |] eqn:Hpe;
    [| reflexivity].
  destruct (pick_col_answers _ _ _ Hprice) as (cand & Hcand & Hlow).
  destruct (pick_col_answers _ _ _ Hpe) as (cand' & Hcand' & Hlow').
  assert (Hpd : String.eqb price_col "date" = false).
  { apply String.eqb_neq. intros ->. symmetry in Hlow.
    exact (price_is_not_date cand Hcand Hlow). }
  assert (Hed : String.eqb pe_col "date" = false).
  { apply String.eqb_neq. intros ->. symmetry in Hlow'.
    exact (pe_is_not_date cand' Hcand' Hlow'). }
  assert (Hep : String.eqb pe_col "price" = false).
  { apply String.eqb_neq. intros ->. symmetry in Hlow'.
    exact (pe_is_not_price cand' Hcand' Hlow'). }
  cbn [set_item series read_csv]. rewrite Hpd, Hed, Hep. reflexivity.
Qed.

(** X18.  The derived columns never stand in the way: the three columns
    are the ones [pick_col] finds in the header of the file as read, their
    cells are the cells of the file, and the first synonym list left
    without a column decides the error, date before price before pe. *)
Theorem load_pe_monthly_csv_unshadowed (name : string) (file : CsvFile Cell) :
  load_pe_monthly_csv Cell to_datetime to_numeric dates_to_numeric name file =
  match pick_col (header file) date_candidates with
  | None => Raises (no_date_column name)
  | Some date_col =>
      match pick_col (header file) price_candidates with
      | None => Raises (no_price_column name)
      | Some price_col =>
          match pick_col (header file) pe_candidates with
          | None => Raises (no_pe_column name)
          | Some pe_col =>
              Returns
                (load_pe_monthly
                   (zip_rows (to_datetime (cells file date_col))
                             (to_numeric (cells file price_col))
                             (to_numeric (cells file pe_col))))
          end
      end
  end.
Proof. exact (load_pe_monthly_csv_plain name file). Qed.

Lemma append_inj_r (n a b : string) : (n ++ a = n ++ b)%string -> a = b.
Proof.
  induction n as [| ch n IH]; simpl; intros H; [assumption |].
  injection H as H. now apply IH.
Qed.

Lemma has_column_pick (file : CsvFile Cell) (candidates : list string) :
  has_column file candidates <->
  exists c, pick_col (header file) candidates = Some c.
Proof.
  unfold has_column. split.
  - intros (c & cand & Hc & Hcand & Hans).
    destruct (pick_col (header file) candidates) as [c0 |] eqn:Hpick;
      [now exists c0 |].
    exfalso. rewrite pick_col_none in Hpick. exact (Hpick cand c Hcand Hc Hans).
  - intros [c Hpick].
    destruct (pick_col_some _ _ _ Hpick) as (Hin & earlier & cand & later & -> & Hans & _).
    exists c, cand. repeat split; try assumption.
    apply in_or_app. right. now left.
Qed.


End CsvFacts.


(* ================================================================= *)
(** ** The driver *)

Section DateFilter.

Lemma ts_leb_from_start (s : Timestamp) (k : Month) :
  (1 <= month s <= 12)%Z ->
  ts_leb s (month_start k) = true <->
  (month_ordinal s < k \/ (month_ordinal s = k /\ day s <= 1))%Z.
Proof.
  intros Hm. unfold ts_leb, month_start, month_ordinal. cbn [year month day].
  repeat (rewrite orb_true_iff || rewrite andb_true_iff).
  rewrite !Z.ltb_lt, !Z.eqb_eq, !Z.leb_le.
  pose proof (Z.div_mod k 12 ltac:(lia)) as Hk.
  pose proof (Z.mod_pos_bound k 12 ltac:(lia)) as Hb.
  set (q := (k / 12)%Z) in *. set (m := (k mod 12)%Z) in *. lia.
Qed.

Lemma ts_leb_to_end (e : Timestamp) (k : Month) :
  (1 <= month e <= 12)%Z -> (1 <= day e)%Z ->
  ts_leb (month_start k) e = true <-> (k <= month_ordinal e)%Z.
Proof.
  intros Hm Hd. unfold ts_leb, month_start, month_ordinal. cbn [year month day].
  repeat (rewrite orb_true_iff || rewrite andb_true_iff).
  rewrite !Z.ltb_lt, !Z.eqb_eq, !Z.leb_le.
  pose proof (Z.div_mod k 12 ltac:(lia)) as Hk.
  pose proof (Z.mod_pos_bound k 12 ltac:(lia)) as Hb.
  set (q := (k / 12)%Z) in *. set (m := (k mod 12)%Z) in *. lia.
Qed.

(** X20.  The date filters work on month starts.  A row is kept when its
    month lies after the month of [--start], or is that month and
    [--start] is its first day, and when its month is not after the month
    of [--end]: a start date inside a month drops that month, an end date
    inside a month keeps it. *)
Theorem filter_dates_by_month (s e : Timestamp) (panel : list Row) (r : Row) :
  (1 <= month s <= 12)%Z -> (1 <= day s)%Z ->
  (1 <= month e <= 12)%Z -> (1 <= day e)%Z ->
  In r (filter_dates (Some s) (Some e) panel) <->
  In r panel /\
  (month_ordinal s < date r \/ (month_ordinal s = date r /\ day s = 1))%Z /\
  (date r <= month_ordinal e)%Z.
Proof.
  intros Hms Hds Hme Hde. unfold filter_dates.
  rewrite !filter_In, ts_leb_from_start, ts_leb_to_end by assumption.
  split.
  - intros [[Hin Hs] He]. repeat split; [assumption | lia | assumption].
  - intros (Hin & Hs & He). repeat split; [assumption | lia | assumption].
Qed.

Lemma filter_dates_by_month_witness :
  In example_dec
    (filter_dates (Some (mkTimestamp 2020 1 15)) (Some (mkTimestamp 2020 12 15))
       example_panel) <->
  In example_dec example_panel /\
  (month_ordinal (mkTimestamp 2020 1 15) < date example_dec \/
   (month_ordinal (mkTimestamp 2020 1 15) = date example_dec /\
    day (mkTimestamp 2020 1 15) = 1))%Z /\
  (date example_dec <= month_ordinal (mkTimestamp 2020 12 15))%Z.
Proof.
  apply (filter_dates_by_month (mkTimestamp 2020 1 15) (mkTimestamp 2020 12 15)
           example_panel example_dec); simpl; lia.
Defined.

Lemma filter_dates_In (s e : option Timestamp) (panel : list Row) (r : Row) :
  In r (filter_dates s e panel) -> In r panel.
Proof.
  unfold filter_dates. destruct s, e; intros H;
    repeat (apply filter_In in H; destruct H as [H _]); assumption.
Qed.

Lemma filter_dates_cleaned (s e : option Timestamp) (panel : list Row) :
  Forall cleaned panel -> Forall cleaned (filter_dates s e panel).
Proof.
  rewrite !Forall_forall. intros H r Hr. apply H.
  now apply filter_dates_In in Hr.
Qed.

End DateFilter.

Section DriverFacts.

Local Open Scope R_scope.

Variable Cell : Type.
Variable to_datetime : list Cell -> list (option Timestamp).
Variable to_numeric : list Cell -> list float.
Variable dates_to_numeric : list (option Month) -> list float.
Variable files : string -> option (CsvFile Cell).

Let step := main_step Cell to_datetime to_numeric dates_to_numeric files.
Let loop := main_loop Cell to_datetime to_numeric dates_to_numeric files.
Let panel_of := ticker_panel Cell to_datetime to_numeric dates_to_numeric files.

Lemma ticker_panel_cleaned (args : Args) (t : string) (panel : list Row) :
  panel_of args t = Some panel -> Forall cleaned panel.
Proof.
  unfold panel_of, ticker_panel. destruct (files t) as [file |]; [| discriminate].
  rewrite load_pe_monthly_csv_plain.
  destruct (pick_col (header file) date_candidates); [| discriminate].
  destruct (pick_col (header file) price_candidates); [| discriminate].
  destruct (pick_col (header file) pe_candidates); [| discriminate].
  intros H. injection H as <-. apply filter_dates_cleaned.
  apply load_pe_monthly_cleaned.
Qed.

Lemma cleaned_panel_returns (panel : list Row) :
  Forall cleaned panel ->
  ((exists d, decompose_endpoints panel = Returns d) <->
   (2 <= List.length (dropna panel))%nat).
Proof.
  intros Hclean. split.
  - intros [d Hd]. exact (decompose_endpoints_two_rows panel d Hd).
  - intros Hlen. pose proof (dropna_cleaned panel Hclean) as Hdrop.
    destruct (dropna panel) as [| s [| r rest]] eqn:Hp;
      try (simpl in Hlen; lia).
    assert (Hs : valid_row s = true).
    { assert (Hin : In s (filter valid_row panel)) by (rewrite <- Hdrop; now left).
      now apply filter_In in Hin. }
    destruct (valid_row_positive s Hs) as (Hprice & Hpe & Heps).
    apply (decompose_endpoints_returns _ s (r :: rest) Hp); try assumption.
    discriminate.
Qed.

(** One iteration: it returns, and either the ticker was decomposed and
    its rows were appended, or nothing changed. *)
Lemma main_step_spec (args : Args) (acc : Collected) (t : string) :
  exists acc',
    step args acc t = Returns acc' /\
    ((exists panel d roll,
        panel_of args t = Some panel /\
        decompose_endpoints panel = Returns d /\
        rolling_decomposition panel t (arg_rolling_months args)
          (arg_min_abs_log_price args) (arg_share_cap_pct args) = Returns roll /\
        summary_rows acc' = summary_rows acc ++ [(t, d)] /\
        rolling_frames acc' =
          match roll with
          | [] => rolling_frames acc
          | _ :: _ => rolling_frames acc ++ [roll]
          end)
     \/
     (acc' = acc /\
      forall panel d, panel_of args t = Some panel ->
                      decompose_endpoints panel <> Returns d)).
Proof.
  unfold step, main_step, panel_of, ticker_panel.
  destruct (files t) as [file |];
    [| exists acc; split; [reflexivity | right; split; [reflexivity | discriminate]]].
  destruct (load_pe_monthly_csv Cell to_datetime to_numeric dates_to_numeric
              (t ++ "_pe_monthly.csv") file) as [panel0 | e];
    [| exists acc; split; [reflexivity | right; split; [reflexivity | discriminate]]].
  set (panel := filter_dates (arg_start args) (arg_end args) panel0).
  destruct (decompose_endpoints panel) as [d | e] eqn:Hd.
  - unfold rolling_decomposition at 1. cbn [bind]. eexists. split; [reflexivity |].
    left. exists panel, d. eexists. repeat split; try assumption.
  - exists acc. split; [reflexivity |]. right. split; [reflexivity |].
    intros panel' d H. injection H as <-. rewrite Hd. discriminate.
Qed.

Lemma main_loop_summary (args : Args) (tickers : list string)
    (acc out : Collected) (t : string) (d : Decomposition) :
  loop args acc tickers = Returns out ->
  (In (t, d) (summary_rows out) <->
   In (t, d) (summary_rows acc) \/
   (In t tickers /\
    exists panel, panel_of args t = Some panel /\
                  decompose_endpoints panel = Returns d)).
Proof.
  revert acc. induction tickers as [| x rest IH]; intros acc Hloop.
  - simpl in Hloop. injection Hloop as <-. simpl. intuition.
  - unfold loop in Hloop. simpl in Hloop. fold loop in Hloop.
    destruct (main_step_spec args acc x) as (acc' & Hstep & Hcase).
    fold step in Hloop. rewrite Hstep in Hloop. cbn [bind] in Hloop.
    rewrite (IH acc' Hloop).
    destruct Hcase as [(panel & d0 & roll & Hpanel & Hd0 & _ & Hsum & _) | [-> Hnone]].
    + rewrite Hsum, in_app_iff. simpl. split.
      * intros [[H | [H | []]] | [Hin H]].
        -- now left.
        -- injection H as <- <-. right. split; [now left | now exists panel].
        -- right. split; [now right | assumption].
      * intros [H | [[<- | Hin] (panel' & Hp' & Hd')]].
        -- left. now left.
        -- left. right. left. f_equal. rewrite Hpanel in Hp'.
           injection Hp' as <-. congruence.
        -- right. split; [assumption | now exists panel'].
    + split.
      * intros [H | [Hin H]]; [now left | right; split; [now right | assumption]].
      * intros [H | [[<- | Hin] (panel' & Hp' & Hd')]].
        -- now left.
        -- exfalso. exact (Hnone panel' d Hp' Hd').
        -- right. split; [assumption | now exists panel'].
Qed.

Lemma main_loop_frames (args : Args) (tickers : list string)
    (acc out : Collected) (roll : list RollingRow) :
  loop args acc tickers = Returns out ->
  (In roll (rolling_frames out) <->
   In roll (rolling_frames acc) \/
   (roll <> [] /\
    exists t panel d,
      In t tickers /\ panel_of args t = Some panel /\
      decompose_endpoints panel = Returns d /\
      rolling_decomposition panel t (arg_rolling_months args)
        (arg_min_abs_log_price args) (arg_share_cap_pct args) = Returns roll)).
Proof.
  revert acc. induction tickers as [| x rest IH]; intros acc Hloop.
  - simpl in Hloop. injection Hloop as <-. simpl. split; [now left |].
    intros [H | (_ & t & panel & d & [] & _)]. assumption.
  - unfold loop in Hloop. simpl in Hloop. fold loop in Hloop.
    destruct (main_step_spec args acc x) as (acc' & Hstep & Hcase).
    fold step in Hloop. rewrite Hstep in Hloop. cbn [bind] in Hloop.
    rewrite (IH acc' Hloop).
    destruct Hcase as [(panel & d0 & roll0 & Hpanel & Hd0 & Hroll & _ & Hframes)
                      | [-> Hnone]].
    + rewrite Hframes. split.
      * intros [H | (Hne & t & panel' & d & Hin & Hrest)].
        -- destruct roll0 as [| r0 tl0]; [now left |].
           apply in_app_iff in H. destruct H as [H | [<- | []]]; [now left |].
           right. split; [discriminate |].
           exists x, panel, d0. repeat split; try assumption. now left.
        -- right. split; [assumption |]. exists t, panel', d.
           destruct Hrest as (Hp & Hd & Hr). repeat split; try assumption.
           now right.
      * intros [H | (Hne & t & panel' & d & [<- | Hin] & Hp & Hd & Hr)].
        -- left. destruct roll0; [assumption | apply in_app_iff; now left].
        -- left. rewrite Hpanel in Hp. injection Hp as <-.
           rewrite Hroll in Hr. injection Hr as <-.
           destruct roll0 as [| r0 tl0]; [congruence |].
           apply in_app_iff. right. now left.
        -- right. split; [assumption |]. now exists t, panel', d.
    + split.
      * intros [H | (Hne & t & panel' & d & Hin & Hrest)]; [now left |].
        right. split; [assumption |]. exists t, panel', d.
        destruct Hrest as (Hp & Hd & Hr). repeat split; try assumption. now right.
      * intros [H | (Hne & t & panel' & d & [<- | Hin] & Hp & Hd & Hr)].
        -- now left.
        -- exfalso. exact (Hnone panel' d Hp Hd).
        -- right. split; [assumption |]. now exists t, panel', d.
Qed.

(** X21.  Which tickers reach the summary.  A ticker has a summary row
    exactly when it is on the command line, its file is there with a date,
    a price and a pe column, and its loaded and date-filtered panel has at
    least two rows with price, pe and eps; the row holds the endpoint
    decomposition of that panel. *)
Theorem summary_rows_iff (args : Args) (out : Collected) (t : string) :
  main_collect Cell to_datetime to_numeric dates_to_numeric files args =
    Returns out ->
  ((exists d, In (t, d) (summary_rows out)) <->
   In t (arg_tickers args) /\
   exists panel,
     ticker_panel Cell to_datetime to_numeric dates_to_numeric files args t =
       Some panel /\
     (2 <= List.length (dropna panel))%nat) /\
  (forall d,
     In (t, d) (summary_rows out) <->
     In t (arg_tickers args) /\
     exists panel,
       ticker_panel Cell to_datetime to_numeric dates_to_numeric files args t =
         Some panel /\
       decompose_endpoints panel = Returns d).
Proof.
  intros Hout. unfold main_collect in Hout.
  assert (Hrows : forall d,
             In (t, d) (summary_rows out) <->
             In t (arg_tickers args) /\
             exists panel, panel_of args t = Some panel /\
                           decompose_endpoints panel = Returns d).
  { intros d. rewrite (main_loop_summary args _ _ out t d Hout). simpl.
    intuition. }
  split; [| exact Hrows]. split.
  - intros [d Hd]. apply Hrows in Hd. destruct Hd as (Hin & panel & Hp & Hd).
    split; [assumption |]. exists panel. split; [assumption |].
    apply (cleaned_panel_returns panel (ticker_panel_cleaned args t panel Hp)).
    now exists d.
  - intros (Hin & panel & Hp & Hlen).
    apply (cleaned_panel_returns panel (ticker_panel_cleaned args t panel Hp))
      in Hlen.
    destruct Hlen as [d Hd]. exists d. apply Hrows.
    split; [assumption |]. now exists panel.
Qed.

(** X22.  Which rolling frames are collected.  A frame is kept exactly
    when it is not empty and is the rolling decomposition, under the
    ticker's name and the options of the command line, of the panel of a
    ticker whose endpoint decomposition returned: a ticker without a
    summary row never has rolling rows. *)
Theorem rolling_frames_iff (args : Args) (out : Collected)
    (roll : list RollingRow) :
  main_collect Cell to_datetime to_numeric dates_to_numeric files args =
    Returns out ->
  (In roll (rolling_frames out) <->
   roll <> [] /\
   exists t panel d,
     In t (arg_tickers args) /\
     ticker_panel Cell to_datetime to_numeric dates_to_numeric files args t =
       Some panel /\
     In (t, d) (summary_rows out) /\
     rolling_decomposition panel t (arg_rolling_months args)
       (arg_min_abs_log_price args) (arg_share_cap_pct args) = Returns roll).
Proof.
  intros Hout. unfold main_collect in Hout.
  rewrite (main_loop_frames args _ _ out roll Hout). simpl. split.
  - intros [[] | (Hne & t & panel & d & Hin & Hp & Hd & Hr)].
    split; [assumption |]. exists t, panel, d. repeat split; try assumption.
    apply (main_loop_summary args _ _ out t d Hout). right.
    split; [assumption | now exists panel].
  - intros (Hne & t & panel & d & Hin & Hp & Hd & Hr). right.
    split; [assumption |]. exists t, panel, d. repeat split; try assumption.
    apply (main_loop_summary args _ _ out t d Hout) in Hd.
    destruct Hd as [[] | (_ & panel' & Hp' & Hd)].
    fold panel_of in Hp. rewrite Hp in Hp'. injection Hp' as <-. assumption.
Qed.

End DriverFacts.

Section DriverExample.

Local Open Scope R_scope.

Lemma example_csv_loads :
  load_pe_monthly_csv ExampleCell example_to_datetime example_to_numeric
    example_dates_to_numeric "NVDA_pe_monthly.csv" example_csv =
  Returns example_panel.
Proof.
  rewrite load_pe_monthly_csv_plain.
  change (pick_col (header example_csv) date_candidates) with (Some "Date"%string).
  change (pick_col (header example_csv) price_candidates) with (Some "Price"%string).
  change (pick_col (header example_csv) pe_candidates) with (Some "PE"%string).
  cbv beta iota.
  change (zip_rows (example_to_datetime (cells example_csv "Date"))
            (example_to_numeric (cells example_csv "Price"))
            (example_to_numeric (cells example_csv "PE")))
    with example_file.
  now rewrite example_file_loads.
Qed.

Lemma example_step_nvda :
  main_step ExampleCell example_to_datetime example_to_numeric
    example_dates_to_numeric example_files example_args
    {| summary_rows := []; rolling_frames := [] |} "NVDA" =
  Returns example_collected.
Proof.
  unfold main_step.
  change (example_files "NVDA") with (Some example_csv).
  change ("NVDA" ++ "_pe_monthly.csv")%string with "NVDA_pe_monthly.csv"%string.
  cbv beta iota. rewrite example_csv_loads.
  change (filter_dates (arg_start example_args) (arg_end example_args) example_panel)
    with example_panel.
  rewrite example_decomposes.
  change (arg_rolling_months example_args) with 1%Z.
  change (arg_min_abs_log_price example_args) with (Fin 0.05).
  change (arg_share_cap_pct example_args) with (Fin 200).
  rewrite example_rolls. reflexivity.
Qed.

Lemma example_step_amd (acc : Collected) :
  main_step ExampleCell example_to_datetime example_to_numeric
    example_dates_to_numeric example_files example_args acc "AMD" =
  Returns acc.
Proof. reflexivity. Qed.

Lemma example_collects :
  main_collect ExampleCell example_to_datetime example_to_numeric
    example_dates_to_numeric example_files example_args =
  Returns example_collected.
Proof.
  unfold main_collect.
  change (arg_tickers example_args) with ["NVDA"%string; "AMD"%string].
  cbn [main_loop]. rewrite example_step_nvda. cbn [bind].
  rewrite example_step_amd. reflexivity.
Qed.

Lemma summary_rows_iff_witness :
  ((exists d, In ("NVDA"%string, d) (summary_rows example_collected)) <->
   In "NVDA"%string (arg_tickers example_args) /\
   exists panel,
     ticker_panel ExampleCell example_to_datetime example_to_numeric
       example_dates_to_numeric example_files example_args "NVDA" = Some panel /\
     (2 <= List.length (dropna panel))%nat) /\
  (forall d,
     In ("NVDA"%string, d) (summary_rows example_collected) <->
     In "NVDA"%string (arg_tickers example_args) /\
     exists panel,
       ticker_panel ExampleCell example_to_datetime example_to_numeric
         example_dates_to_numeric example_files example_args "NVDA" = Some panel /\
       decompose_endpoints panel = Returns d).
Proof.
  apply (summary_rows_iff ExampleCell example_to_datetime example_to_numeric
           example_dates_to_numeric example_files example_args example_collected
           "NVDA").
  exact example_collects.
Defined.

Lemma rolling_frames_iff_witness :
  In [example_row] (rolling_frames example_collected) <->
  [example_row] <> [] /\
  exists t panel d,
    In t (arg_tickers example_args) /\
    ticker_panel ExampleCell example_to_datetime example_to_numeric
      example_dates_to_numeric example_files example_args t = Some panel /\
    In (t, d) (summary_rows example_collected) /\
    rolling_decomposition panel t (arg_rolling_months example_args)
      (arg_min_abs_log_price example_args) (arg_share_cap_pct example_args) =
    Returns [example_row].
Proof.
  apply (rolling_frames_iff ExampleCell example_to_datetime example_to_numeric
           example_dates_to_numeric example_files example_args example_collected
           [example_row]).
  exact example_collects.
Defined.

End DriverExample.

(* ================================================================= *)
(** ** Window widths below zero *)

Section NegativeWidth.

Local Open Scope Z_scope.

Lemma seq_from (a b : nat) : seq a b = map (fun k => (a + k)%nat) (seq 0 b).
Proof.
  revert a. induction b as [| b IH]; intros a; [reflexivity |].
  cbn [seq map]. rewrite Nat.add_0_r. f_equal.
  rewrite (IH (S a)), (IH 1%nat), map_map. apply map_ext. intros k. lia.
Qed.

Lemma range_split (lo mid hi : Z) :
  lo <= mid <= hi -> range lo hi = range lo mid ++ range mid hi.
Proof.
  intros H. unfold range.
  replace (Z.to_nat (hi - lo)) with (Z.to_nat (mid - lo) + Z.to_nat (hi - mid))%nat
    by lia.
  rewrite seq_app, map_app. f_equal. cbn [Nat.add].
  rewrite (seq_from (Z.to_nat (mid - lo))), map_map. apply map_ext.
  intros k. lia.
Qed.

Lemma range_shift (lo hi n : Z) :
  range (lo + n) (hi + n) = map (fun i => i + n) (range lo hi).
Proof.
  unfold range. rewrite map_map.
  replace (hi + n - (lo + n)) with (hi - lo) by lia.
  apply map_ext. intros k. lia.
Qed.

(** A window read with a negative stop is the window of width
    [n + window] that ends [n] places later. *)
Lemma window_negative (p : list Row) (w i : Z) :
  w <= i <= -2 -> 1 <= Z.of_nat (List.length p) + w ->
  window p w i =
  window p (Z.of_nat (List.length p) + w) (i + Z.of_nat (List.length p)).
Proof.
  intros Hi Hn. unfold window, iloc, slice_bound.
  set (n := Z.of_nat (List.length p)) in *.
  replace (i + n - (n + w)) with (i - w) by lia.
  destruct (Z.ltb_spec (i - w) 0); [lia |].
  destruct (Z.ltb_spec (i + 1) 0); [| lia].
  destruct (Z.ltb_spec (i + n + 1) 0); [lia |].
  rewrite Z.max_r by lia. rewrite (Z.min_l (i + n + 1)) by lia.
  now replace (i + 1 + n) with (i + n + 1) by lia.
Qed.

(** From index -1 on, a negative width leaves nothing in the window. *)
Lemma window_negative_empty (p : list Row) (w i : Z) :
  w <= -1 -> -1 <= i -> window p w i = [].
Proof.
  intros Hw Hi. unfold window, iloc, slice_bound.
  set (n := Z.of_nat (List.length p)).
  assert (Hn : 0 <= n) by (unfold n; lia).
  destruct (Z.ltb_spec (i - w) 0); [lia |].
  destruct (Z.ltb_spec (i + 1) 0); [lia |].
  replace (Z.to_nat (Z.min (i + 1) n - Z.min (i - w) n)) with 0%nat by lia.
  reflexivity.
Qed.

(** With too few rows, no window of a negative width has two rows. *)
Lemma window_negative_short (p : list Row) (w i : Z) :
  w <= i -> Z.of_nat (List.length p) + w <= 0 ->
  (List.length (window p w i) <= 1)%nat.
Proof.
  intros Hi Hn. unfold window, iloc, slice_bound.
  set (n := Z.of_nat (List.length p)) in *.
  etransitivity; [apply firstn_le_length |].
  destruct (Z.ltb_spec (i - w) 0); [lia |].
  destruct (Z.ltb_spec (i + 1) 0); lia.
Qed.

Lemma flat_map_reindex (A B C : Type) (f : B -> list C) (g : A -> B)
    (h : A -> list C) (l : list A) :
  (forall x, In x l -> f (g x) = h x) ->
  flat_map f (map g l) = flat_map h l.
Proof.
  induction l as [| x tl IH]; intros H; simpl; [reflexivity |].
  rewrite (H x) by now left. f_equal. apply IH. intros y Hy. apply H. now right.
Qed.

(** X23.  A window width below zero is not refused, and [iloc] reads the
    negative stop from the end of the frame.  On a cleaned series with [n]
    valid rows and a width [w < 0]: when [n + w < 1] nothing is emitted;
    otherwise the rows are those of the width [n + w], the last one left
    out. *)
Theorem rolling_negative_width (panel : list Row) (ticker : string) (w : Z)
    (m c : float) (rows : list RollingRow) :
  Forall cleaned panel -> w <= -1 ->
  rolling_decomposition panel ticker
    (Z.of_nat (List.length (dropna panel)) + w) m c = Returns rows ->
  rolling_decomposition panel ticker w m c =
  Returns (if 1 <=? Z.of_nat (List.length (dropna panel)) + w
           then removelast rows else []).
Proof.
  intros Hclean Hw Hrows. unfold rolling_decomposition in *.
  fold (sorted_valid panel) in *. rewrite rolling_step_fold in *.
  rewrite <- sorted_valid_length in *.
  set (p := sorted_valid panel) in *. set (n := Z.of_nat (List.length p)) in *.
  assert (Hn : 0 <= n) by (unfold n; lia).
  cbn [app] in *. f_equal. injection Hrows as <-.
  destruct (Z.leb_spec 1 (n + w)) as [Hbig | Hsmall].
  - rewrite (range_split w (-1) n) by lia. rewrite flat_map_app.
    rewrite (flat_map_nil _ _ _ (range (-1) n)).
    2:{ intros i Hi. apply range_In in Hi. unfold window_rows.
        rewrite window_negative_empty by lia. reflexivity. }
    rewrite app_nil_r.
    rewrite (range_split (n + w) (n - 1) n) by lia. rewrite flat_map_app.
    replace (range (n - 1) n) with [n - 1].
    2:{ unfold range. replace (Z.to_nat (n - (n - 1))) with 1%nat by lia.
        simpl. f_equal. lia. }
    cbn [flat_map]. rewrite app_nil_r.
    destruct (window_decomposes panel (n + w) (n - 1) Hclean Hbig)
      as (s & e & d & _ & _ & Hd & _); [fold p; fold n; lia |].
    fold p in Hd. unfold window_rows at 3. rewrite Hd. rewrite removelast_last.
    replace (n + w) with (w + n) at 2 by lia.
    replace (n - 1) with (-1 + n) by lia.
    rewrite range_shift. symmetry. apply flat_map_reindex.
    intros i Hi. apply range_In in Hi. unfold window_rows.
    rewrite (window_negative p w i) by (fold n; lia). fold n.
    reflexivity.
  - apply flat_map_nil. intros i Hi. apply range_In in Hi. unfold window_rows.
    rewrite decompose_endpoints_short; [reflexivity |].
    pose proof (window_negative_short p w i) as Hshort.
    pose proof (dropna_length (window p w i)). fold n in Hshort. lia.
Qed.

Lemma rolling_negative_width_witness :
  rolling_decomposition example_panel "NVDA" (-1) (Fin 0.05) (Fin 200) =
  Returns (if 1 <=? Z.of_nat (List.length (dropna example_panel)) + -1
           then removelast [example_row] else []).
Proof.
  apply (rolling_negative_width example_panel "NVDA" (-1) (Fin 0.05) (Fin 200)
           [example_row]).
  - exact example_rows_cleaned.
  - lia.
  - exact example_rolls.
Defined.

End NegativeWidth.


(* ================================================================= *)
(** ** Prices in another unit *)

Section Rescale.

Local Open Scope R_scope.

Lemma notna_fmul (k : R) (x : float) : k <> 0 -> notna (fmul (Fin k) x) = notna x.
Proof.
  intros Hk. destruct x; simpl; try reflexivity;
    rewrite Reqb_false by assumption; unfold signed_inf;
    match goal with |- context [Rltb ?a ?b] => destruct (Rltb a b) end;
    reflexivity.
Qed.

Lemma dropna_rescale (k : R) (panel : list Row) :
  k <> 0 -> dropna (map (rescale k) panel) = map (rescale k) (dropna panel).
Proof.
  intros Hk. unfold dropna. induction panel as [| r tl IH]; [reflexivity |].
  cbn [map filter]. rewrite IH.
  assert (Hr : notna (price (rescale k r)) && notna (pe (rescale k r)) &&
               notna (eps (rescale k r)) =
               notna (price r) && notna (pe r) && notna (eps r)).
  { unfold rescale. cbn [price pe eps]. now rewrite !notna_fmul. }
  rewrite Hr.
  destruct (notna (price r) && notna (pe r) && notna (eps r)); reflexivity.
Qed.

Lemma endpoints_map (f : Row -> Row) (l : list Row) (s e : Row) :
  endpoints l = Some (s, e) -> endpoints (map f l) = Some (f s, f e).
Proof.
  destruct l as [| x rest]; simpl; [discriminate |].
  intros H. injection H as <- <-. f_equal. f_equal.
  revert x. induction rest as [| y tl IH]; intros x; [reflexivity |].
  cbn [map]. rewrite !last_shift. apply IH.
Qed.

(** X24.  In exact real arithmetic (finite doubles read as the reals they
    denote: no rounding, underflow or overflow) the decomposition does not
    depend on the unit of the prices: over valid observations, multiplying
    every price (and with it every implied value) by the same positive
    number changes nothing in what [decompose_endpoints] returns or
    raises. *)
Theorem decompose_endpoints_rescale (k : R) (panel : list Row) :
  0 < k ->
  (forall r, In r (dropna panel) -> valid_obs r) ->
  decompose_endpoints (map (rescale k) panel) = decompose_endpoints panel.
Proof.
  intros Hk Hvalid.
  destruct (le_lt_dec 2 (List.length (dropna panel))) as [Hlen | Hlen].
  - destruct (endpoints (dropna panel)) as [[s e] |] eqn:Hends.
    2:{ destruct (dropna panel); [simpl in Hlen; lia | discriminate]. }
    destruct (endpoints_In _ _ _ Hends) as [Hs He].
    destruct (Hvalid s Hs) as (p0 & m0 & Hp0 & Hm0 & Hps & Hms & Hes).
    destruct (Hvalid e He) as (p1 & m1 & Hp1 & Hm1 & Hpe & Hme & Hee).
    rewrite (decompose_endpoints_valid panel s e p0 m0 p1 m1) by assumption.
    rewrite (decompose_endpoints_valid (map (rescale k) panel)
               (rescale k s) (rescale k e) (k * p0) m0 (k * p1) m1).
    + cbn [rescale date].
      replace (k * p1 / (k * p0)) with (p1 / p0) by (field; lra).
      replace (k * p1 / m1 / (k * p0 / m0)) with (p1 / m1 / (p0 / m0))
        by (field; lra).
      reflexivity.
    + rewrite dropna_rescale by lra. now apply endpoints_map.
    + rewrite dropna_rescale by lra. now rewrite length_map.
    + now apply Rmult_lt_0_compat.
    + assumption.
    + now apply Rmult_lt_0_compat.
    + assumption.
    + cbn [rescale price]. rewrite Hps. reflexivity.
    + cbn [rescale pe]. assumption.
    + cbn [rescale eps]. rewrite Hes. cbn [fmul]. f_equal. field. lra.
    + cbn [rescale price]. rewrite Hpe. reflexivity.
    + cbn [rescale pe]. assumption.
    + cbn [rescale eps]. rewrite Hee. cbn [fmul]. f_equal. field. lra.
  - rewrite !decompose_endpoints_short; [reflexivity | assumption |].
    rewrite dropna_rescale by lra. now rewrite length_map.
Qed.

Lemma decompose_endpoints_rescale_witness :
  decompose_endpoints (map (rescale 2) example_panel) =
  decompose_endpoints example_panel.
Proof.
  apply (decompose_endpoints_rescale 2 example_panel).
  - lra.
  - intros r Hr. apply dropna_In in Hr.
    exact (proj1 (Forall_forall valid_obs example_panel) example_rows_valid r Hr).
Defined.

End Rescale.
